(** * Segment splitting of stt-silero-vs-pyannote: a shallow embedding

    The development embeds the post-VAD splitting policy of
    [silero_vs_pyannote] (utils.py, pyannote_audio_split.py,
    silero_audio_split.py, config.py) and proves the properties of the
    classifier, the energy-based subdivider, the fixed-width chopper and the
    unit converters.

    The program is embedded twice, with one control flow and two models of
    its numbers.
    - [Module binary64] is the program as it runs: Python floats and numpy
      float64 are the doubles of [PrimFloat], every [*], [/], [+], [-] and
      comparison is the IEEE operation, [int(x)] truncates the value of a
      finite double and raises on an infinity or a nan.
    - The modules [utils], [pyannote_audio_split] and [silero_audio_split]
      are the program in exact arithmetic: every number is a rational [Q], no
      operation rounds, overflows or underflows, and a division by zero
      raises.  The statements proved on them say so.

    Conventions of the embedding.
    - Python [int] values that are used as integers (the counter, range
      indices, frame indices returned by the collaborators) are [Z].
    - A call that raises or loops forever has no normal return: functions
      return a [result], loops by iteration take a [fuel] bound.
    - The dict [split_audio] is a [gmap] from keys to audio segments.  It also
      carries the list of its [__setitem__] calls in program order, a ghost
      trace used to speak about "the segments emitted".
    - The collaborators (pyannote / Silero VAD, librosa.effects.split,
      torchaudio.load) are inputs of the run: the spans they return, the
      sampling rate, the number of samples.
    - A pydub slice [audio[start_ms:end_ms]] is a handle that records the two
      bounds requested.  What pydub cuts for them (whole frames, clamped to
      the length of the audio) is outside the source and is not modelled: a
      duration or a width of a segment is always that of the requested
      bounds. *)

From Stdlib Require Import ZArith QArith Qround Lia Lqa List.
From Stdlib Require Import Ascii String Decimal DecimalString DecimalZ DecimalN DecimalPos.
From Stdlib Require Import PrimFloat FloatOps SpecFloat.
From stdpp Require Import base option list gmap strings.

Local Open Scope Q_scope.

(** ** Outcomes of a call *)

Inductive result (A : Type) : Type :=
| Ok (a : A)
| ZeroDivisionError
| OutOfFuel.
Arguments Ok {A} a.
Arguments ZeroDivisionError {A}.
Arguments OutOfFuel {A}.

Global Instance result_ret : MRet result := λ A a, Ok a.
Global Instance result_bind : MBind result := λ A B f m,
  match m with
  | Ok a => f a
  | ZeroDivisionError => ZeroDivisionError
  | OutOfFuel => OutOfFuel
  end.

(** [for x in xs: body], threading the loop-carried state. *)
Fixpoint for_each {A S : Type} (xs : list A) (body : A → S → result S) (s : S)
  : result S :=
  match xs with
  | [] => Ok s
  | x :: xs' => s' ← body x s; for_each xs' body s'
  end.

(** ** Python arithmetic on exact numbers *)

Definition Qltb (x y : Q) : bool := negb (Qle_bool y x).

(** [x / y] on Python numbers. *)
Definition truediv (x y : Q) : result Q :=
  if Qeq_bool y 0 then ZeroDivisionError else Ok (x / y).

(** [int(x)]: truncation toward zero. *)
Definition py_int (x : Q) : Z := Z.quot (Qnum x) (Z.pos (Qden x)).

(** [range(n)]. *)
Definition range (n : Z) : list Z := seqZ 0 n.

(** ** Formatting of integers in f-strings *)

(** [f"{z}"] for an int. *)
Definition format_int (z : Z) : string := NilZero.string_of_int (Z.to_int z).

Definition zfill (width : nat) (d : uint) : uint :=
  Nat.iter (width - nb_digits d) D0 d.

(** [f"{z:04}"]: zero padding to a minimum width of four characters, the
    sign included. *)
Definition format_04 (z : Z) : string :=
  match Z.to_int z with
  | Decimal.Pos d => NilEmpty.string_of_uint (zfill 4 d)
  | Decimal.Neg d => String "-" (NilEmpty.string_of_uint (zfill 3 d))
  end.

(** ** Data model *)

(** The [vad_span] objects: pyannote's [Segment], and the ad hoc [Timeline]
    object of the Silero path.  Both are read through [.start] and [.end]. *)
Record Timeline : Type := { start : Q; end_ : Q }.

(** A pydub audio segment obtained by slicing the original audio: the handle
    records the millisecond bounds of the slice. *)
Record AudioSegment : Type := { seg_start_ms : Q; seg_end_ms : Q }.

(** [audio[start_ms:end_ms]] *)
Definition getitem (audio : AudioSegment) (start_ms end_ms : Q) : AudioSegment :=
  {| seg_start_ms := start_ms; seg_end_ms := end_ms |}.

(** Duration in seconds of the slice a handle stands for. *)
Definition duration (seg : AudioSegment) : Q :=
  (seg_end_ms seg - seg_start_ms seg) / 1000.

(** Which statement of the program performed a write (ghost). *)
Inductive stage : Type :=
| Classifier                          (* the loop of get_split_audio*            *)
| Subdivider                          (* the loop of process_non_mute_segments   *)
| Chopper (chop_index n_chops : Z).   (* the loop of chop_long_segment_duration  *)

Record emission : Type :=
  { em_key : string; em_segment : AudioSegment; em_stage : stage }.

(** The dict object [split_audio], with the trace of its writes. *)
Record dict : Type :=
  { items : gmap string AudioSegment; emitted : list emission }.

Definition empty_dict : dict := {| items := ∅; emitted := [] |}.

(** [split_audio[key] = value] *)
Definition setitem (st : stage) (key : string) (value : AudioSegment)
    (split_audio : dict) : dict :=
  {| items := <[key := value]> (items split_audio);
     emitted := emitted split_audio ++
                [{| em_key := key; em_segment := value; em_stage := st |}] |}.

(** [f"{full_audio_id}_{counter:04}_{int(start_ms)}_to_{int(end_ms)}"] *)
Definition segment_key (full_audio_id : string) (counter : Z)
    (start_ms end_ms : Q) : string :=
  full_audio_id +:+ "_" +:+ format_04 counter +:+ "_" +:+
  format_int (py_int start_ms) +:+ "_to_" +:+ format_int (py_int end_ms).

(** ** config.py *)

Module config.
Definition AUDIO_SEG_UPPER_LIMIT : Q := 8.
Definition AUDIO_SEG_LOWER_LIMIT : Q := 2.
End config.

(** ** utils.py *)

Module utils.

Definition sec_to_millis (seconds : Q) : Q := seconds * 1000.

Definition frame_to_sec (frame sampling_rate : Q) : result Q :=
  truediv frame sampling_rate.

Definition sec_to_frame (sec sr : Q) : Q := sec * sr.

(** [while chop_length > upper_limit: chop_length = chop_length / 2];
    one unit of fuel per execution of the body. *)
Fixpoint while_halve (fuel : nat) (chop_length upper_limit : Q) : result Q :=
  if Qltb upper_limit chop_length then
    match fuel with
    | O => OutOfFuel
    | S fuel' => while_halve fuel' (chop_length / 2) upper_limit
    end
  else Ok chop_length.

(** One iteration of the [for chop_index in range(...)] loop of
    [chop_long_segment_duration]; [n_chops] is the bound of the range. *)
Definition chop_iteration (chop_length : Q) (n_chops : Z)
    (original_audio_segment : AudioSegment) (vad_span : Timeline)
    (split_start : Z) (sampling_rate : Q) (full_audio_id : string)
    (chop_index : Z) (state : Z * dict) : result (Z * dict) :=
  let '(counter, split_audio) := state in
  offset ← frame_to_sec (inject_Z split_start) sampling_rate;
  let start_ms :=
    sec_to_millis (start vad_span + offset
                   + chop_length * inject_Z chop_index) in
  offset' ← frame_to_sec (inject_Z split_start) sampling_rate;
  let end_ms :=
    sec_to_millis (start vad_span + offset'
                   + chop_length * inject_Z (chop_index + 1)) in
  let segment_split_chop := getitem original_audio_segment start_ms end_ms in
  let key := segment_key full_audio_id counter start_ms end_ms in
  Ok ((counter + 1)%Z,
      setitem (Chopper chop_index n_chops) key segment_split_chop split_audio).

Definition chop_long_segment_duration (fuel : nat)
    (segment_split_duration upper_limit : Q)
    (original_audio_segment : AudioSegment) (vad_span : Timeline)
    (split_start : Z) (sampling_rate : Q) (full_audio_id : string)
    (split_audio : dict) (counter : Z) : result (Z * dict) :=
  chop_length ← while_halve fuel (segment_split_duration / 2) upper_limit;
  quotient ← truediv segment_split_duration chop_length;
  for_each (range (py_int quotient))
    (chop_iteration chop_length (py_int quotient) original_audio_segment
       vad_span split_start sampling_rate full_audio_id)
    (counter, split_audio).

(** One iteration of the loop of [process_non_mute_segments]. *)
Definition process_non_mute_segment (fuel : nat)
    (original_audio_segment : AudioSegment) (vad_span : Timeline)
    (sampling_rate lower_limit upper_limit : Q) (full_audio_id : string)
    (split : Z * Z) (state : Z * dict) : result (Z * dict) :=
  let '(split_start, split_end) := split in
  let '(counter, split_audio) := state in
  s1 ← frame_to_sec (inject_Z split_start) sampling_rate;
  let start_ms := sec_to_millis (start vad_span + s1) in
  e1 ← frame_to_sec (inject_Z split_end) sampling_rate;
  let end_ms := sec_to_millis (start vad_span + e1) in
  let segment_split := getitem original_audio_segment start_ms end_ms in
  e2 ← frame_to_sec (inject_Z split_end) sampling_rate;
  s2 ← frame_to_sec (inject_Z split_start) sampling_rate;
  let segment_split_duration :=
    (start vad_span + e2) - (start vad_span + s2) in
  if Qle_bool lower_limit segment_split_duration
     && Qle_bool segment_split_duration upper_limit then
    let key := segment_key full_audio_id counter start_ms end_ms in
    Ok ((counter + 1)%Z, setitem Subdivider key segment_split split_audio)
  else if Qltb upper_limit segment_split_duration then
    chop_long_segment_duration fuel segment_split_duration upper_limit
      original_audio_segment vad_span split_start sampling_rate
      full_audio_id split_audio counter
  else Ok (counter, split_audio).

Definition process_non_mute_segments (fuel : nat)
    (non_mute_segment_splits : list (Z * Z))
    (original_audio_segment : AudioSegment) (vad_span : Timeline)
    (sampling_rate lower_limit upper_limit : Q) (full_audio_id : string)
    (counter : Z) (split_audio : dict) : result (Z * dict) :=
  for_each non_mute_segment_splits
    (process_non_mute_segment fuel original_audio_segment vad_span
       sampling_rate lower_limit upper_limit full_audio_id)
    (counter, split_audio).

End utils.
Import utils.

(** ** pyannote_audio_split.py *)

Module pyannote_audio_split.

(** One iteration of the loop of [get_split_audio] over
    [vad.get_timeline().support()].  [sampling_rate] is the rate
    [torchaudio.load] returned and [effects_split lo hi] the run list of
    [librosa.effects.split(original_audio_ndarray[lo:hi], top_db=30)]. *)
Definition classify_vad_span (fuel : nat)
    (original_audio_segment : AudioSegment) (sampling_rate : Q)
    (effects_split : Z → Z → list (Z * Z)) (full_audio_id : string)
    (lower_limit upper_limit : Q) (vad_span : Timeline) (state : Z * dict)
  : result (Z * dict) :=
  let '(counter, split_audio) := state in
  let start_ms := sec_to_millis (start vad_span) in
  let end_ms := sec_to_millis (end_ vad_span) in
  let vad_segment := getitem original_audio_segment start_ms end_ms in
  let vad_span_length := end_ vad_span - start vad_span in
  if Qle_bool lower_limit vad_span_length
     && Qle_bool vad_span_length upper_limit then
    let key := segment_key full_audio_id counter start_ms end_ms in
    Ok ((counter + 1)%Z, setitem Classifier key vad_segment split_audio)
  else if Qltb upper_limit vad_span_length then
    let non_mute_segment_splits :=
      effects_split
        (py_int (sec_to_frame (start vad_span) sampling_rate))
        (py_int (sec_to_frame (end_ vad_span) sampling_rate)) in
    process_non_mute_segments fuel non_mute_segment_splits
      original_audio_segment vad_span sampling_rate lower_limit
      upper_limit full_audio_id counter split_audio
  else Ok (counter, split_audio).

(** The loop itself; [timeline] is the list of spans the VAD pipeline
    returned. *)
Definition get_split_audio_loop (fuel : nat) (timeline : list Timeline)
    (original_audio_segment : AudioSegment) (sampling_rate : Q)
    (effects_split : Z → Z → list (Z * Z)) (full_audio_id : string)
    (lower_limit upper_limit : Q) (counter : Z) (split_audio : dict)
  : result (Z * dict) :=
  for_each timeline
    (classify_vad_span fuel original_audio_segment sampling_rate
       effects_split full_audio_id lower_limit upper_limit)
    (counter, split_audio).

Definition get_split_audio (fuel : nat) (timeline : list Timeline)
    (original_audio_segment : AudioSegment) (sampling_rate : Q)
    (effects_split : Z → Z → list (Z * Z)) (full_audio_id : string)
    (lower_limit upper_limit : Q) : result dict :=
  '(_, split_audio) ←
    get_split_audio_loop fuel timeline original_audio_segment sampling_rate
      effects_split full_audio_id lower_limit upper_limit 1%Z empty_dict;
  Ok split_audio.

End pyannote_audio_split.

(** ** silero_audio_split.py *)

Module silero_audio_split.

(** One iteration of the loop of [get_split_audio_using_silero] over
    [speech_timestamps]; [ts] is [(ts["start"], ts["end"])]. *)
Definition classify_timestamp (fuel : nat)
    (original_audio_segment : AudioSegment)
    (effects_split : Z → Z → list (Z * Z)) (full_audio_id : string)
    (lower_limit upper_limit : Q) (ts : Z * Z) (state : Z * dict)
  : result (Z * dict) :=
  let '(start_frame, end_frame) := ts in
  let '(counter, split_audio) := state in
  let vad_span := {| start := inject_Z start_frame / 16000;
                     end_ := inject_Z end_frame / 16000 |} in
  let segment_duration := inject_Z (end_frame - start_frame) / 16000 in
  if Qle_bool lower_limit segment_duration
     && Qle_bool segment_duration upper_limit then
    let start_ms := sec_to_millis (start vad_span) in
    let end_ms := sec_to_millis (end_ vad_span) in
    let segment := getitem original_audio_segment start_ms end_ms in
    let key := segment_key full_audio_id counter start_ms end_ms in
    Ok ((counter + 1)%Z, setitem Classifier key segment split_audio)
  else if Qltb upper_limit segment_duration then
    let non_mute_segment_splits := effects_split start_frame end_frame in
    process_non_mute_segments fuel non_mute_segment_splits
      original_audio_segment vad_span 16000 lower_limit upper_limit
      full_audio_id counter split_audio
  else Ok (counter, split_audio).

(** The loop itself; [speech_timestamps] is the list of sample-index pairs
    Silero returned. *)
Definition get_split_audio_using_silero_loop (fuel : nat)
    (speech_timestamps : list (Z * Z))
    (original_audio_segment : AudioSegment)
    (effects_split : Z → Z → list (Z * Z)) (full_audio_id : string)
    (lower_limit upper_limit : Q) (counter : Z) (split_audio : dict)
  : result (Z * dict) :=
  for_each speech_timestamps
    (classify_timestamp fuel original_audio_segment effects_split
       full_audio_id lower_limit upper_limit)
    (counter, split_audio).

Definition get_split_audio_using_silero (fuel : nat)
    (speech_timestamps : list (Z * Z))
    (original_audio_segment : AudioSegment)
    (effects_split : Z → Z → list (Z * Z)) (full_audio_id : string)
    (lower_limit upper_limit : Q) : result dict :=
  '(_, split_audio) ←
    get_split_audio_using_silero_loop fuel speech_timestamps
      original_audio_segment effects_split full_audio_id lower_limit
      upper_limit 1%Z empty_dict;
  Ok split_audio.

End silero_audio_split.
Import pyannote_audio_split silero_audio_split.

(** * The program in binary64

    The same functions with Python's floats as IEEE 754 doubles, to evaluate
    the program as it runs.  In the loops of utils.py the frames are numpy
    integers, so every quotient is an IEEE quotient (a zero divisor gives an
    infinity or a nan, not an exception); [int(x)] raises on an infinity or a
    nan.  An integer converts to the nearest double.  A segment that is
    written holds the rational values of the float bounds it was sliced at;
    slicing and the two [int(...)] of the key need these bounds finite, and
    are represented together by [exact]. *)

Module binary64.

Inductive outcome (A : Type) : Type :=
| Returns (a : A)
| Raises
| NoReturn.
Arguments Returns {A} a.
Arguments Raises {A}.
Arguments NoReturn {A}.

#[global] Instance outcome_ret : MRet outcome := λ A a, Returns a.
#[global] Instance outcome_bind : MBind outcome := λ A B f m,
  match m with
  | Returns a => f a
  | Raises => Raises
  | NoReturn => NoReturn
  end.

(** [for x in xs: body], threading the loop-carried state. *)
Fixpoint for_each {A S : Type} (xs : list A) (body : A → S → outcome S) (s : S)
  : outcome S :=
  match xs with
  | [] => Returns s
  | x :: xs' => s' ← body x s; for_each xs' body s'
  end.

(** [float(z)] for an int, as in [z / 16000] or [chop_length * chop_index]. *)
Definition of_int (z : Z) : float :=
  SF2Prim (binary_normalize prec emax z 0 false).

(** The rational a finite double stands for; an infinity or a nan raises. *)
Definition exact (x : float) : outcome Q :=
  match Prim2SF x with
  | S754_zero _ => Returns 0
  | S754_finite s m e =>
      Returns (inject_Z (if s then Z.neg m else Z.pos m) * 2 ^ e)
  | S754_infinity _ => Raises
  | S754_nan => Raises
  end.

(** [int(x)] on a float: truncation of its value toward zero. *)
Definition to_int (x : float) : outcome Z :=
  q ← exact x; Returns (py_int q).

Record Timeline : Type := { start : float; end_ : float }.

Definition sec_to_millis (seconds : float) : float := (seconds * 1000)%float.

Definition frame_to_sec (frame sampling_rate : float) : float :=
  (frame / sampling_rate)%float.

Definition sec_to_frame (sec sr : float) : float := (sec * sr)%float.

(** [while chop_length > upper_limit: chop_length = chop_length / 2] *)
Fixpoint while_halve (fuel : nat) (chop_length upper_limit : float)
  : outcome float :=
  if (upper_limit <? chop_length)%float then
    match fuel with
    | O => NoReturn
    | S fuel' => while_halve fuel' (chop_length / 2)%float upper_limit
    end
  else Returns chop_length.

(** The millisecond bounds of chop [chop_index]. *)
Definition chop_bounds (chop_length : float) (vad_span : Timeline)
    (split_start sampling_rate : Z) (chop_index : Z) : float * float :=
  (sec_to_millis
     (start vad_span
      + frame_to_sec (of_int split_start) (of_int sampling_rate)
      + chop_length * of_int chop_index)%float,
   sec_to_millis
     (start vad_span
      + frame_to_sec (of_int split_start) (of_int sampling_rate)
      + chop_length * of_int (chop_index + 1))%float).

(** One iteration of the loop of [chop_long_segment_duration]. *)
Definition chop_iteration (chop_length : float) (n_chops : Z)
    (original_audio_segment : AudioSegment) (vad_span : Timeline)
    (split_start sampling_rate : Z) (full_audio_id : string)
    (chop_index : Z) (state : Z * dict) : outcome (Z * dict) :=
  let '(counter, split_audio) := state in
  let '(start_ms, end_ms) :=
    chop_bounds chop_length vad_span split_start sampling_rate chop_index in
  s ← exact start_ms;
  e ← exact end_ms;
  let segment_split_chop := getitem original_audio_segment s e in
  let key := segment_key full_audio_id counter s e in
  Returns ((counter + 1)%Z,
           setitem (Chopper chop_index n_chops) key segment_split_chop
             split_audio).

Definition chop_long_segment_duration (fuel : nat)
    (segment_split_duration upper_limit : float)
    (original_audio_segment : AudioSegment) (vad_span : Timeline)
    (split_start sampling_rate : Z) (full_audio_id : string)
    (split_audio : dict) (counter : Z) : outcome (Z * dict) :=
  chop_length ← while_halve fuel (segment_split_duration / 2)%float upper_limit;
  n_chops ← to_int (segment_split_duration / chop_length)%float;
  for_each (range n_chops)
    (chop_iteration chop_length n_chops original_audio_segment vad_span
       split_start sampling_rate full_audio_id)
    (counter, split_audio).

(** The duration of a non-mute run as the code computes it. *)
Definition computed_duration (vad_span : Timeline) (sampling_rate : Z)
    (split : Z * Z) : float :=
  ((start vad_span + frame_to_sec (of_int split.2) (of_int sampling_rate))
   - (start vad_span + frame_to_sec (of_int split.1) (of_int sampling_rate)))%float.

(** One iteration of the loop of [process_non_mute_segments]. *)
Definition process_non_mute_segment (fuel : nat)
    (original_audio_segment : AudioSegment) (vad_span : Timeline)
    (sampling_rate : Z) (lower_limit upper_limit : float)
    (full_audio_id : string) (split : Z * Z) (state : Z * dict)
  : outcome (Z * dict) :=
  let '(counter, split_audio) := state in
  let start_ms :=
    sec_to_millis
      (start vad_span + frame_to_sec (of_int split.1) (of_int sampling_rate))%float in
  let end_ms :=
    sec_to_millis
      (start vad_span + frame_to_sec (of_int split.2) (of_int sampling_rate))%float in
  let segment_split_duration := computed_duration vad_span sampling_rate split in
  if (lower_limit <=? segment_split_duration)%float
     && (segment_split_duration <=? upper_limit)%float then
    s ← exact start_ms;
    e ← exact end_ms;
    let segment_split := getitem original_audio_segment s e in
    let key := segment_key full_audio_id counter s e in
    Returns ((counter + 1)%Z, setitem Subdivider key segment_split split_audio)
  else if (upper_limit <? segment_split_duration)%float then
    chop_long_segment_duration fuel segment_split_duration upper_limit
      original_audio_segment vad_span split.1 sampling_rate full_audio_id
      split_audio counter
  else Returns (counter, split_audio).

Definition process_non_mute_segments (fuel : nat)
    (non_mute_segment_splits : list (Z * Z))
    (original_audio_segment : AudioSegment) (vad_span : Timeline)
    (sampling_rate : Z) (lower_limit upper_limit : float)
    (full_audio_id : string) (counter : Z) (split_audio : dict)
  : outcome (Z * dict) :=
  for_each non_mute_segment_splits
    (process_non_mute_segment fuel original_audio_segment vad_span
       sampling_rate lower_limit upper_limit full_audio_id)
    (counter, split_audio).

(** One iteration of the loop of [get_split_audio] (pyannote). *)
Definition classify_vad_span (fuel : nat)
    (original_audio_segment : AudioSegment) (sampling_rate : Z)
    (effects_split : Z → Z → list (Z * Z)) (full_audio_id : string)
    (lower_limit upper_limit : float) (vad_span : Timeline) (state : Z * dict)
  : outcome (Z * dict) :=
  let '(counter, split_audio) := state in
  let start_ms := sec_to_millis (start vad_span) in
  let end_ms := sec_to_millis (end_ vad_span) in
  let vad_span_length := (end_ vad_span - start vad_span)%float in
  if (lower_limit <=? vad_span_length)%float
     && (vad_span_length <=? upper_limit)%float then
    s ← exact start_ms;
    e ← exact end_ms;
    let vad_segment := getitem original_audio_segment s e in
    let key := segment_key full_audio_id counter s e in
    Returns ((counter + 1)%Z, setitem Classifier key vad_segment split_audio)
  else if (upper_limit <? vad_span_length)%float then
    lo ← to_int (sec_to_frame (start vad_span) (of_int sampling_rate));
    hi ← to_int (sec_to_frame (end_ vad_span) (of_int sampling_rate));
    process_non_mute_segments fuel (effects_split lo hi)
      original_audio_segment vad_span sampling_rate lower_limit upper_limit
      full_audio_id counter split_audio
  else Returns (counter, split_audio).

Definition get_split_audio_loop (fuel : nat) (timeline : list Timeline)
    (original_audio_segment : AudioSegment) (sampling_rate : Z)
    (effects_split : Z → Z → list (Z * Z)) (full_audio_id : string)
    (lower_limit upper_limit : float) (counter : Z) (split_audio : dict)
  : outcome (Z * dict) :=
  for_each timeline
    (classify_vad_span fuel original_audio_segment sampling_rate
       effects_split full_audio_id lower_limit upper_limit)
    (counter, split_audio).

Definition get_split_audio (fuel : nat) (timeline : list Timeline)
    (original_audio_segment : AudioSegment) (sampling_rate : Z)
    (effects_split : Z → Z → list (Z * Z)) (full_audio_id : string)
    (lower_limit upper_limit : float) : outcome dict :=
  '(_, split_audio) ←
    get_split_audio_loop fuel timeline original_audio_segment sampling_rate
      effects_split full_audio_id lower_limit upper_limit 1%Z empty_dict;
  Returns split_audio.

(** The [vad_span] object of the Silero path.  The frames are Python ints,
    and [start_frame / 16000] is the double nearest to the quotient: for a
    frame below [2^53], which a double holds exactly, it is the IEEE quotient
    of the converted frame. *)
Definition silero_span (ts : Z * Z) : Timeline :=
  {| start := (of_int ts.1 / 16000)%float; end_ := (of_int ts.2 / 16000)%float |}.

(** One iteration of the loop of [get_split_audio_using_silero]. *)
Definition classify_timestamp (fuel : nat)
    (original_audio_segment : AudioSegment)
    (effects_split : Z → Z → list (Z * Z)) (full_audio_id : string)
    (lower_limit upper_limit : float) (ts : Z * Z) (state : Z * dict)
  : outcome (Z * dict) :=
  let '(counter, split_audio) := state in
  let vad_span := silero_span ts in
  let segment_duration := (of_int (ts.2 - ts.1) / 16000)%float in
  if (lower_limit <=? segment_duration)%float
     && (segment_duration <=? upper_limit)%float then
    let start_ms := sec_to_millis (start vad_span) in
    let end_ms := sec_to_millis (end_ vad_span) in
    s ← exact start_ms;
    e ← exact end_ms;
    let segment := getitem original_audio_segment s e in
    let key := segment_key full_audio_id counter s e in
    Returns ((counter + 1)%Z, setitem Classifier key segment split_audio)
  else if (upper_limit <? segment_duration)%float then
    process_non_mute_segments fuel (effects_split ts.1 ts.2)
      original_audio_segment vad_span 16000 lower_limit upper_limit
      full_audio_id counter split_audio
  else Returns (counter, split_audio).

Definition get_split_audio_using_silero_loop (fuel : nat)
    (speech_timestamps : list (Z * Z))
    (original_audio_segment : AudioSegment)
    (effects_split : Z → Z → list (Z * Z)) (full_audio_id : string)
    (lower_limit upper_limit : float) (counter : Z) (split_audio : dict)
  : outcome (Z * dict) :=
  for_each speech_timestamps
    (classify_timestamp fuel original_audio_segment effects_split
       full_audio_id lower_limit upper_limit)
    (counter, split_audio).

Definition get_split_audio_using_silero (fuel : nat)
    (speech_timestamps : list (Z * Z))
    (original_audio_segment : AudioSegment)
    (effects_split : Z → Z → list (Z * Z)) (full_audio_id : string)
    (lower_limit upper_limit : float) : outcome dict :=
  '(_, split_audio) ←
    get_split_audio_using_silero_loop fuel speech_timestamps
      original_audio_segment effects_split full_audio_id lower_limit
      upper_limit 1%Z empty_dict;
  Returns split_audio.

End binary64.

(** * Specification vocabulary *)

(** ** Halvings *)

(** [2^k] as a rational. *)
Definition pow2 (k : nat) : Q := inject_Z (2 ^ Z.of_nat k).

(** [k] successive halvings, as the loop computes them. *)
Definition halved (k : nat) (x : Q) : Q := Nat.iter k (λ y, y / 2) x.

(** [ceil(log2 x)] for [x >= 1]: the least [n] with [x <= 2^n]. *)
Definition ceil_log2 (x : Q) : nat := Z.to_nat (Z.log2_up (Qceiling x)).

(** ** Writes to the dict *)

(** The items of a dict after the writes [news], in order. *)
Definition replay (news : list emission) (m : gmap string AudioSegment)
  : gmap string AudioSegment :=
  foldl (λ m e, <[em_key e := em_segment e]> m) m news.

(** The dict after the writes [news], in order. *)
Definition apply_writes (news : list emission) (d : dict) : dict :=
  {| items := replay news (items d); emitted := emitted d ++ news |}.

(** The write of iteration [chop_index] of the chopper's loop. [offset] is
    [frame_to_sec(split_start, sampling_rate)] and [counter] the value of the
    counter when the loop is entered. *)
Definition chop_emission (chop_length : Q) (n_chops : Z)
    (original_audio_segment : AudioSegment) (vad_span : Timeline) (offset : Q)
    (full_audio_id : string) (counter : Z) (chop_index : Z) : emission :=
  let start_ms :=
    sec_to_millis (start vad_span + offset + chop_length * inject_Z chop_index) in
  let end_ms :=
    sec_to_millis (start vad_span + offset
                   + chop_length * inject_Z (chop_index + 1)) in
  {| em_key := segment_key full_audio_id (counter + chop_index) start_ms end_ms;
     em_segment := getitem original_audio_segment start_ms end_ms;
     em_stage := Chopper chop_index n_chops |}.

Definition chop_emissions (chop_length : Q) (n_chops : Z)
    (original_audio_segment : AudioSegment) (vad_span : Timeline) (offset : Q)
    (full_audio_id : string) (counter : Z) : list emission :=
  map (chop_emission chop_length n_chops original_audio_segment vad_span offset
         full_audio_id counter) (range n_chops).

(** ** The three outcomes of the classifier, as relations
    [iterations R xs c news]: a loop over [xs] entered with counter [c]
    writes [news], the concatenation of what its iterations write; iteration
    [x], entered with counter [c'], writes some [l] with [R x c' l]. *)
Inductive iterations {A : Type} (R : A → Z → list emission → Prop)
  : list A → Z → list emission → Prop :=
| iterations_nil (c : Z) : iterations R [] c []
| iterations_cons (x : A) (xs : list A) (c : Z) (l rest : list emission) :
    R x c l →
    iterations R xs (c + Z.of_nat (length l))%Z rest →
    iterations R (x :: xs) c (l ++ rest).

Section classifier.
Context (original_audio_segment : AudioSegment) (full_audio_id : string)
        (lower_limit upper_limit : Q).

(** The write of an accepted span. *)
Definition accept_emission (st : stage) (counter : Z) (start_ms end_ms : Q)
  : emission :=
  {| em_key := segment_key full_audio_id counter start_ms end_ms;
     em_segment := getitem original_audio_segment start_ms end_ms;
     em_stage := st |}.

(** Duration of a non-mute run, as [process_non_mute_segments] computes it. *)
Definition sub_duration (vad_span : Timeline) (sr : Q) (split : Z * Z) : Q :=
  (start vad_span + inject_Z split.2 / sr)
  - (start vad_span + inject_Z split.1 / sr).

Inductive sub_span_emits (vad_span : Timeline) (sr : Q)
  : Z * Z → Z → list emission → Prop :=
| sub_accept split c :
    lower_limit <= sub_duration vad_span sr split →
    sub_duration vad_span sr split <= upper_limit →
    sub_span_emits vad_span sr split c
      [accept_emission Subdivider c
         (sec_to_millis (start vad_span + inject_Z split.1 / sr))
         (sec_to_millis (start vad_span + inject_Z split.2 / sr))]
| sub_chop split c k chop_length :
    upper_limit < sub_duration vad_span sr split →
    chop_length = halved (S k) (sub_duration vad_span sr split) →
    upper_limit / 2 < chop_length →
    chop_length <= upper_limit →
    sub_span_emits vad_span sr split c
      (chop_emissions chop_length
         (py_int (sub_duration vad_span sr split / chop_length))
         original_audio_segment vad_span (inject_Z split.1 / sr)
         full_audio_id c)
| sub_discard split c :
    sub_duration vad_span sr split < lower_limit →
    sub_duration vad_span sr split <= upper_limit →
    sub_span_emits vad_span sr split c [].

(** A span of length [len], whose non-mute runs are [runs]. *)
Inductive span_emits (vad_span : Timeline) (len sr : Q) (runs : list (Z * Z))
  : Z → list emission → Prop :=
| span_accept c :
    lower_limit <= len → len <= upper_limit →
    span_emits vad_span len sr runs c
      [accept_emission Classifier c (sec_to_millis (start vad_span))
         (sec_to_millis (end_ vad_span))]
| span_subdivide c news :
    upper_limit < len →
    iterations (sub_span_emits vad_span sr) runs c news →
    span_emits vad_span len sr runs c news
| span_discard c :
    len < lower_limit → len <= upper_limit →
    span_emits vad_span len sr runs c [].

(** The span and its runs, as the pyannote path sees them. *)
Definition pyannote_emits (sr : Q) (effects_split : Z → Z → list (Z * Z))
    (vs : Timeline) : Z → list emission → Prop :=
  span_emits vs (end_ vs - start vs) sr
    (effects_split (py_int (sec_to_frame (start vs) sr))
                   (py_int (sec_to_frame (end_ vs) sr))).

(** The span and its runs, as the Silero path sees them. *)
Definition silero_span (ts : Z * Z) : Timeline :=
  {| start := inject_Z ts.1 / 16000; end_ := inject_Z ts.2 / 16000 |}.

Definition silero_emits (effects_split : Z → Z → list (Z * Z)) (ts : Z * Z)
  : Z → list emission → Prop :=
  span_emits (silero_span ts)
    (inject_Z (ts.2 - ts.1) / 16000) 16000 (effects_split ts.1 ts.2).

End classifier.

(** ** Segment keys and sequence numbers *)

Definition is_digit (a : ascii) : bool :=
  match a with
  | "0" | "1" | "2" | "3" | "4" | "5" | "6" | "7" | "8" | "9" => true
  | _ => false
  end%char.

Fixpoint all_digits (s : string) : bool :=
  match s with
  | EmptyString => true
  | String a s' => is_digit a && all_digits s'
  end.

(** A field of a key: an optional sign, then decimal digits. *)
Definition is_number (s : string) : bool :=
  match s with
  | String "-" s' => all_digits s'
  | _ => all_digits s
  end.

(** The [i]-th write of [news] carries sequence number [c + i] and the
    truncated millisecond bounds of its own segment. *)
Definition well_keyed (id : string) (c : Z) (news : list emission) : Prop :=
  ∀ (i : nat) (e : emission), news !! i = Some e →
    em_key e = segment_key id (c + Z.of_nat i)
                 (seg_start_ms (em_segment e)) (seg_end_ms (em_segment e)).

(** No key of [m] carries a sequence number from [c] on. *)
Definition fresh (id : string) (c : Z) (m : gmap string AudioSegment) : Prop :=
  ∀ (c' : Z) (s e : Q), (c <= c')%Z → m !! segment_key id c' s e = None.

(** ** Durations *)

Definition in_band (lower upper : Q) (e : emission) : Prop :=
  lower <= duration (em_segment e) ∧ duration (em_segment e) <= upper.

(** What the code guarantees of a write, by the stage that made it. *)
Definition band_ok (lower upper : Q) (e : emission) : Prop :=
  match em_stage e with
  | Chopper _ _ =>
      upper / 2 < duration (em_segment e) ∧ duration (em_segment e) <= upper
  | _ => in_band lower upper e
  end.

(** Sum of the durations of a list of writes. *)
Definition total_duration (l : list emission) : Q :=
  foldr (λ e acc, duration (em_segment e) + acc) 0 l.

(** ** Non-mute runs inside a slice of samples
    [runs_within lo hi runs]: the runs are ordered, disjoint and lie between
    the sample indices [lo] and [hi], the contract of the energy analysis on a
    slice of [hi - lo] samples. *)
Fixpoint runs_within (lo hi : Z) (runs : list (Z * Z)) : bool :=
  match runs with
  | [] => (lo <=? hi)%Z
  | (s, e) :: rest => (lo <=? s)%Z && (s <=? e)%Z && runs_within e hi rest
  end.

(** ** Effects of a call *)

(** [writes_from id c d c' d']: from counter [c] and dict [d] the call made
    [c' - c] writes, numbered from [c] on, and left [d']. *)
Definition writes_from (id : string) (c : Z) (d : dict) (c' : Z) (d' : dict)
  : Prop :=
  ∃ news : list emission,
    well_keyed id c news ∧
    c' = (c + Z.of_nat (length news))%Z ∧ d' = apply_writes news d.

(** The frame condition of a call on the dict and the counter. *)
Definition only_adds (c : Z) (d : dict) (c' : Z) (d' : dict) : Prop :=
  (∀ (k : string) (v : AudioSegment),
     items d !! k = Some v → items d' !! k = Some v) ∧
  c' = (c + (Z.of_nat (size (items d')) - Z.of_nat (size (items d))))%Z ∧
  (c <= c')%Z.

(** The keys of a run that ended with counter [c] and dict [d]. *)
Definition run_keys (id : string) (c : Z) (d : dict) : Prop :=
  c = (1 + Z.of_nat (length (emitted d)))%Z ∧
  (∀ (i : nat) (e : emission), emitted d !! i = Some e →
     em_key e = segment_key id (1 + Z.of_nat i)
                  (seg_start_ms (em_segment e)) (seg_end_ms (em_segment e)) ∧
     items d !! em_key e = Some (em_segment e) ∧
     ((1 + Z.of_nat i <= 9999)%Z →
      String.length (format_04 (1 + Z.of_nat i)) = 4%nat)) ∧
  NoDup (em_key <$> emitted d) ∧
  size (items d) = length (emitted d).

(** The claim C1 as it reads: a write is in the band, or it is the final chop
    of a chopper call. *)
Definition band_or_final_chop (lower upper : Q) (e : emission) : Prop :=
  in_band lower upper e ∨ ∃ n : Z, em_stage e = Chopper (n - 1) n.

(** ** Segments in time order *)

(** [segments_within lo hi l]: the segments of the writes [l], in the order
    of the writes, are slices with start <= end, each starting no earlier
    than the previous one ends, all between the millisecond offsets [lo] and
    [hi]. *)
Fixpoint segments_within (lo hi : Q) (l : list emission) : Prop :=
  match l with
  | [] => lo <= hi
  | e :: rest =>
      lo <= seg_start_ms (em_segment e) ∧
      seg_start_ms (em_segment e) <= seg_end_ms (em_segment e) ∧
      segments_within (seg_end_ms (em_segment e)) hi rest
  end.

(** Two writes of a list never overlap in time: the earlier one ends before
    the later one starts. *)
Definition non_overlapping (l : list emission) : Prop :=
  ∀ (i j : nat) (e e' : emission),
    (i < j)%nat → l !! i = Some e → l !! j = Some e' →
    seg_end_ms (em_segment e) <= seg_start_ms (em_segment e').

(** ** Runs that never subdivide *)


(** ** The program in binary64 *)

(** A double that is neither an infinity nor a nan. *)
Definition finite (x : float) : bool :=
  match binary64.exact x with
  | binary64.Returns _ => true
  | _ => false
  end.

(** The integer a decimal string denotes, as Python's [int(s)] reads it. *)
Definition parse_int (s : string) : option Z :=
  option_map Z.of_int (NilZero.int_of_string s).

(** [accepts_bounds r st id c d orig start_ms end_ms]: the call with outcome
    [r], entered with counter [c] and dict [d], returns counter [c + 1] and
    writes exactly one segment, the slice between the values of the doubles
    [start_ms] and [end_ms], under the key of sequence number [c] and of the
    truncations of these values, a key that was not in the dict before. *)
Definition accepts_bounds (r : binary64.outcome (Z * dict)) (st : stage)
    (id : string) (c : Z) (d : dict) (orig : AudioSegment)
    (start_ms end_ms : float) : Prop :=
  ∃ (s e : Q) (d' : dict),
    binary64.exact start_ms = binary64.Returns s ∧
    binary64.exact end_ms = binary64.Returns e ∧
    r = binary64.Returns ((c + 1)%Z, d') ∧
    emitted d' = emitted d ++
      [{| em_key := segment_key id c s e; em_segment := getitem orig s e;
          em_stage := st |}] ∧
    items d' = <[segment_key id c s e := getitem orig s e]> (items d) ∧
    items d !! segment_key id c s e = None.

(** The keys of a run that ended with counter [c] and dict [d], spelled out:
    the [i]-th write (from 0) is stored under
    [{id}_{1+i:04}_{int(start_ms)}_to_{int(end_ms)}] for the bounds of its
    own segment. *)
Definition keys_in_sequence (id : string) (c : Z) (d : dict) : Prop :=
  c = (1 + Z.of_nat (length (emitted d)))%Z ∧
  (∀ (i : nat) (e : emission), emitted d !! i = Some e →
     em_key e =
       id +:+ "_" +:+ format_04 (1 + Z.of_nat i) +:+ "_" +:+
       format_int (py_int (seg_start_ms (em_segment e))) +:+ "_to_" +:+
       format_int (py_int (seg_end_ms (em_segment e))) ∧
     items d !! em_key e = Some (em_segment e)) ∧
  NoDup (em_key <$> emitted d) ∧
  size (items d) = length (emitted d).

(** A frame number a double holds exactly: on such Python ints [a / 16000]
    is the one rounded division of [silero_span]. *)
Definition sample_index (z : Z) : bool := (0 <=? z)%Z && (z <? 2 ^ 53)%Z.

Definition sample_span (ts : Z * Z) : bool :=
  sample_index ts.1 && sample_index ts.2.

(** The millisecond offset at which chop [chop_index - 1] ends and chop
    [chop_index] starts, as the chopper computes it. *)
Definition chop_boundary (chop_length : float) (vad_span : binary64.Timeline)
    (split_start sampling_rate : Z) (chop_index : Z) : float :=
  binary64.sec_to_millis
    (binary64.start vad_span
     + binary64.frame_to_sec (binary64.of_int split_start)
         (binary64.of_int sampling_rate)
     + chop_length * binary64.of_int chop_index)%float.

(** The width in milliseconds of the slice a handle stands for. *)
Definition width_ms (seg : AudioSegment) : Q :=
  seg_end_ms seg - seg_start_ms seg.

(** The handle [seg] is the slice requested between the doubles [start_ms]
    and [end_ms]. *)
Definition slice_between (seg : AudioSegment) (start_ms end_ms : float) : Prop :=
  binary64.exact start_ms = binary64.Returns (seg_start_ms seg) ∧
  binary64.exact end_ms = binary64.Returns (seg_end_ms seg).

(** Where a write comes from, by the stage that made it.  A segment of the
    classifier or of the subdivider is the slice between the millisecond
    bounds of a span [[a, b]] (seconds) whose duration [len], as the program
    computed it, passed the test [lower_limit <= len <= upper_limit]; [len]
    is [b - a], or [(end_frame - start_frame) / 16000] for a Silero span.  A
    chop is the slice between two consecutive boundaries
    [(base + chop_length * i) * 1000] for a [chop_length] on which the halving
    loop stopped: not above [upper_limit], and half of a length above it. *)
Definition computed_origin (lower upper : float) (e : emission) : Prop :=
  match em_stage e with
  | Classifier =>
      ∃ a b len : float,
        slice_between (em_segment e)
          (binary64.sec_to_millis a) (binary64.sec_to_millis b) ∧
        (lower <=? len)%float = true ∧ (len <=? upper)%float = true ∧
        (len = (b - a)%float ∨
         ∃ ts : Z * Z,
           a = (binary64.of_int ts.1 / 16000)%float ∧
           b = (binary64.of_int ts.2 / 16000)%float ∧
           len = (binary64.of_int (ts.2 - ts.1) / 16000)%float)
  | Subdivider =>
      ∃ a b : float,
        slice_between (em_segment e)
          (binary64.sec_to_millis a) (binary64.sec_to_millis b) ∧
        (lower <=? b - a)%float = true ∧ (b - a <=? upper)%float = true
  | Chopper i n =>
      ∃ base chop_length x : float,
        slice_between (em_segment e)
          (binary64.sec_to_millis (base + chop_length * binary64.of_int i))
          (binary64.sec_to_millis (base + chop_length * binary64.of_int (i + 1))) ∧
        chop_length = (x / 2)%float ∧
        (upper <? x)%float = true ∧ (upper <? chop_length)%float = false
  end.

(** [writes_with P c d c' d']: from counter [c] and dict [d] the call made
    [c' - c] writes, all with the property [P], and left [d']. *)
Definition writes_with (P : emission → Prop) (c : Z) (d : dict) (c' : Z)
    (d' : dict) : Prop :=
  ∃ news : list emission,
    Forall P news ∧
    c' = (c + Z.of_nat (length news))%Z ∧ d' = apply_writes news d.

(** * Properties *)

(** ** Arithmetic of the embedding *)

(** Linear arithmetic with the divisions by the literals of the program. *)
Ltac qlra :=
  unfold Qdiv in *;
  change (/ 2) with (1 # 2) in *;
  change (/ 1000) with (1 # 1000) in *;
  change (/ 16000) with (1 # 16000) in *;
  lra.

Lemma Qltb_lt (x y : Q) : Qltb x y = true ↔ x < y.
Proof.
  unfold Qltb. rewrite negb_true_iff, <- not_true_iff_false, Qle_bool_iff.
  split; [apply Qnot_le_lt | apply Qlt_not_le].
Qed.

Lemma Qltb_ge (x y : Q) : Qltb x y = false ↔ y <= x.
Proof.
  unfold Qltb. rewrite negb_false_iff. apply Qle_bool_iff.
Qed.

Lemma truediv_ok (x y : Q) : ¬ y == 0 → truediv x y = Ok (x / y).
Proof.
  intros Hy. unfold truediv.
  destruct (Qeq_bool y 0) eqn:E; [|done].
  apply Qeq_bool_iff in E. contradiction.
Qed.

Lemma frame_to_sec_ok (frame sampling_rate : Q) :
  ¬ sampling_rate == 0 → frame_to_sec frame sampling_rate = Ok (frame / sampling_rate).
Proof. apply truediv_ok. Qed.

Lemma py_int_floor (x : Q) : 0 <= x → py_int x = Qfloor x.
Proof.
  destruct x as [n d]. unfold Qle, py_int, Qfloor. simpl. intros H.
  apply Z.quot_div_nonneg; lia.
Qed.

Lemma Qfloor_inject_Z (z : Z) : Qfloor (inject_Z z) = z.
Proof. unfold Qfloor, inject_Z. apply Z.div_1_r. Qed.

Lemma py_int_integer (x : Q) (z : Z) : (0 <= z)%Z → x == inject_Z z → py_int x = z.
Proof.
  intros Hz Hx. rewrite py_int_floor.
  - rewrite (Qfloor_comp _ _ Hx). apply Qfloor_inject_Z.
  - rewrite Hx. change 0 with (inject_Z 0). by rewrite <- Zle_Qle.
Qed.

Lemma pow2_0 : pow2 0 == 1.
Proof. reflexivity. Qed.

Lemma pow2_S (k : nat) : pow2 (S k) == 2 * pow2 k.
Proof.
  unfold pow2. rewrite Nat2Z.inj_succ, Z.pow_succ_r by lia.
  by rewrite inject_Z_mult.
Qed.

Lemma pow2_pos (k : nat) : 0 < pow2 k.
Proof.
  unfold pow2. change 0 with (inject_Z 0). rewrite <- Zlt_Qlt.
  apply Z.pow_pos_nonneg; lia.
Qed.

Lemma halved_S (k : nat) (x : Q) : halved (S k) x = halved k x / 2.
Proof. reflexivity. Qed.

Lemma halved_shift (k : nat) (x : Q) : halved k (x / 2) = halved (S k) x.
Proof.
  induction k as [|k IH]; [done|].
  rewrite halved_S, IH. reflexivity.
Qed.

Lemma halved_pow2 (k : nat) (x : Q) : halved k x == x / pow2 k.
Proof.
  induction k as [|k IH].
  - simpl. rewrite pow2_0. field.
  - rewrite halved_S, IH, pow2_S. field.
    intros E. pose proof (pow2_pos k) as Hp. rewrite E in Hp. by apply Qlt_irrefl in Hp.
Qed.

(** ** The halving loop *)

Lemma while_halve_exit (fuel : nat) (c u : Q) :
  c <= u → while_halve fuel c u = Ok c.
Proof.
  intros H. apply Qltb_ge in H. destruct fuel; simpl; by rewrite H.
Qed.

Lemma while_halve_step (fuel : nat) (c u : Q) :
  u < c → while_halve (S fuel) c u = while_halve fuel (c / 2) u.
Proof. intros H. apply Qltb_lt in H. simpl. by rewrite H. Qed.

(** If [c <= 2^m * u] the loop leaves after at most [m] executions of its
    body. *)
Lemma while_halve_bounded (m : nat) (c u : Q) :
  c <= pow2 m * u →
  ∃ k : nat, (k <= m)%nat ∧ halved k c <= u ∧
    ∀ fuel, (k <= fuel)%nat → while_halve fuel c u = Ok (halved k c).
Proof.
  revert c. induction m as [|m IH]; intros c Hc.
  - exists 0%nat. rewrite pow2_0, Qmult_1_l in Hc.
    split; [lia|]. split; [done|]. intros fuel _. by apply while_halve_exit.
  - destruct (Qlt_le_dec u c) as [Hlt|Hle].
    + destruct (IH (c / 2)) as (k & Hk & Hu & Hf).
      { rewrite pow2_S in Hc. apply Qle_shift_div_r; [reflexivity|].
        eapply Qle_trans; [exact Hc|]. apply Qle_lteq. right. ring. }
      exists (S k). rewrite <- halved_shift.
      split; [lia|]. split; [done|].
      intros [|fuel] Hfuel; [lia|].
      rewrite while_halve_step by done. apply Hf. lia.
    + exists 0%nat. split; [lia|]. split; [done|].
      intros fuel _. by apply while_halve_exit.
Qed.

(** A result of the loop is some number of halvings of its start value. *)
Lemma while_halve_inv (fuel : nat) (c u r : Q) :
  while_halve fuel c u = Ok r →
  ∃ k : nat, r = halved k c ∧ r <= u.
Proof.
  revert c. induction fuel as [|fuel IH]; intros c; simpl.
  - destruct (Qltb u c) eqn:E; [done|]. intros [= <-].
    exists 0%nat. split; [done|]. by apply Qltb_ge.
  - destruct (Qltb u c) eqn:E.
    + intros H. destruct (IH _ H) as (k & -> & Hr).
      exists (S k). by rewrite <- halved_shift.
    + intros [= <-]. exists 0%nat. split; [done|]. by apply Qltb_ge.
Qed.

(** Started above [u / 2], the loop stays above [u / 2]. *)
Lemma while_halve_lower (fuel : nat) (c u r : Q) :
  u / 2 < c → while_halve fuel c u = Ok r → u / 2 < r.
Proof.
  revert c. induction fuel as [|fuel IH]; intros c Hc; simpl.
  - destruct (Qltb u c) eqn:E; [done|]. by intros [= <-].
  - destruct (Qltb u c) eqn:E.
    + apply IH. apply Qltb_lt in E. qlra.
    + by intros [= <-].
Qed.

Lemma ceil_log2_spec (x : Q) : x <= pow2 (ceil_log2 x).
Proof.
  unfold ceil_log2, pow2.
  apply Qle_trans with (inject_Z (Qceiling x)); [apply Qle_ceiling|].
  rewrite <- Zle_Qle.
  destruct (Z.le_gt_cases (Qceiling x) 1) as [H1|H1].
  - rewrite Z.log2_up_eqn0 by done. simpl. lia.
  - rewrite Z2Nat.id by apply Z.log2_up_nonneg.
    apply Z.log2_up_spec. lia.
Qed.

Lemma ceil_log2_least (x : Q) (n : nat) : x <= pow2 n → (ceil_log2 x <= n)%nat.
Proof.
  unfold ceil_log2, pow2. intros H.
  assert (Hc : (Qceiling x <= 2 ^ Z.of_nat n)%Z).
  { destruct (Z.le_gt_cases (Qceiling x) (2 ^ Z.of_nat n)) as [|Hgt]; [done|].
    exfalso. assert (Hlt : (2 ^ Z.of_nat n <= Qceiling x - 1)%Z) by lia.
    rewrite Zle_Qle in Hlt. pose proof (Qceiling_lt x) as Hx.
    apply (Qlt_irrefl x). eapply Qle_lt_trans; [exact H|].
    eapply Qle_lt_trans; [exact Hlt|exact Hx]. }
  destruct (Z.le_gt_cases (Qceiling x) 1) as [H1|H1].
  - rewrite Z.log2_up_eqn0 by done. simpl. lia.
  - assert ((Z.log2_up (Qceiling x) <= Z.of_nat n)%Z); [|lia].
    apply Z.log2_up_le_pow2; lia.
Qed.

Lemma ceil_log2_pos (x : Q) : 1 < x → (1 <= ceil_log2 x)%nat.
Proof.
  intros Hx. destruct (ceil_log2 x) eqn:E; [|lia]. exfalso.
  pose proof (ceil_log2_spec x) as H. rewrite E, pow2_0 in H.
  eapply Qlt_irrefl, Qlt_le_trans; [apply Hx|apply H].
Qed.

(** ** Replaying writes *)

Lemma apply_writes_nil (d : dict) : apply_writes [] d = d.
Proof. destruct d. unfold apply_writes. simpl. by rewrite app_nil_r. Qed.

Lemma apply_writes_setitem (st : stage) (k : string) (v : AudioSegment) (d : dict) :
  setitem st k v d =
  apply_writes [{| em_key := k; em_segment := v; em_stage := st |}] d.
Proof. reflexivity. Qed.

Lemma apply_writes_app (n1 n2 : list emission) (d : dict) :
  apply_writes n2 (apply_writes n1 d) = apply_writes (n1 ++ n2) d.
Proof.
  unfold apply_writes, replay. simpl. by rewrite foldl_app, app_assoc.
Qed.

Lemma for_each_app {A S : Type} (xs ys : list A) (body : A → S → result S) (s : S) :
  for_each (xs ++ ys) body s = (s' ← for_each xs body s; for_each ys body s').
Proof.
  revert s. induction xs as [|x xs IH]; intros s; simpl; [done|].
  destruct (body x s) as [s1| |]; simpl; [apply IH|done|done].
Qed.

(** ** The chopper, exactly *)

Section chopper.
Context (chop_length : Q) (n_chops : Z) (original_audio_segment : AudioSegment)
        (vad_span : Timeline) (split_start : Z) (sampling_rate : Q)
        (full_audio_id : string).
Hypothesis rate_nonzero : ¬ sampling_rate == 0.

Lemma chop_iteration_exact (chop_index counter : Z) (d : dict) :
  chop_iteration chop_length n_chops original_audio_segment vad_span
    split_start sampling_rate full_audio_id chop_index (counter, d) =
  Ok ((counter + 1)%Z,
      apply_writes
        [chop_emission chop_length n_chops original_audio_segment vad_span
           (inject_Z split_start / sampling_rate) full_audio_id
           (counter - chop_index) chop_index] d).
Proof.
  unfold chop_iteration.
  rewrite (frame_to_sec_ok _ _ rate_nonzero). cbn [mbind result_bind].
  rewrite apply_writes_setitem. unfold chop_emission.
  replace (counter - chop_index + chop_index)%Z with counter by lia.
  reflexivity.
Qed.

Lemma chop_loop_exact (k : nat) (a counter : Z) (d : dict) :
  for_each (seqZ a (Z.of_nat k))
    (chop_iteration chop_length n_chops original_audio_segment vad_span
       split_start sampling_rate full_audio_id) (counter, d) =
  Ok ((counter + Z.of_nat k)%Z,
      apply_writes
        (map (chop_emission chop_length n_chops original_audio_segment
                vad_span (inject_Z split_start / sampling_rate)
                full_audio_id (counter - a))
             (seqZ a (Z.of_nat k))) d).
Proof.
  revert a counter d. induction k as [|k IH]; intros a counter d.
  - simpl. by rewrite Z.add_0_r, apply_writes_nil.
  - rewrite seqZ_cons by lia.
    replace (Z.pred (Z.of_nat (S k))) with (Z.of_nat k) by lia.
    cbn [for_each map]. rewrite chop_iteration_exact.
    cbn [mbind result_bind]. rewrite IH, apply_writes_app.
    f_equal. f_equal; [lia|]. f_equal. cbn [app].
    replace (counter + 1 - Z.succ a)%Z with (counter - a)%Z by lia.
    reflexivity.
Qed.
End chopper.

Lemma range_to_nat (n : Z) : range n = seqZ 0 (Z.of_nat (Z.to_nat n)).
Proof. unfold range, seqZ. by rewrite Nat2Z.id. Qed.

Lemma length_range (n : Z) : length (range n) = Z.to_nat n.
Proof. unfold range. by rewrite length_seqZ. Qed.

Lemma length_chop_emissions cl n orig vs off id c :
  length (chop_emissions cl n orig vs off id c) = Z.to_nat n.
Proof. unfold chop_emissions. by rewrite length_map, length_range. Qed.

(** What a call of the chopper does once its halving loop has returned
    [chop_length]. *)
Lemma chop_exact (fuel : nat) (D U : Q) (orig : AudioSegment) (vs : Timeline)
    (split_start : Z) (sr : Q) (id : string) (d : dict) (counter : Z)
    (chop_length : Q) :
  ¬ sr == 0 → ¬ chop_length == 0 →
  while_halve fuel (D / 2) U = Ok chop_length →
  let n_chops := py_int (D / chop_length) in
  let news := chop_emissions chop_length n_chops orig vs
                (inject_Z split_start / sr) id counter in
  chop_long_segment_duration fuel D U orig vs split_start sr id d counter =
  Ok ((counter + Z.of_nat (length news))%Z, apply_writes news d).
Proof.
  intros Hsr Hcl Hw n_chops news. unfold chop_long_segment_duration.
  rewrite Hw. cbn [mbind result_bind].
  rewrite (truediv_ok _ _ Hcl). cbn [mbind result_bind]. fold n_chops.
  subst news. rewrite length_chop_emissions. unfold chop_emissions.
  rewrite (range_to_nat n_chops), chop_loop_exact by done.
  by rewrite Z.sub_0_r.
Qed.

Lemma for_each_iterations {A : Type} (R : A → Z → list emission → Prop)
    (body : A → Z * dict → result (Z * dict)) (xs : list A) :
  (∀ x c d c' d', body x (c, d) = Ok (c', d') →
     ∃ l, R x c l ∧ c' = (c + Z.of_nat (length l))%Z ∧ d' = apply_writes l d) →
  ∀ c d c' d', for_each xs body (c, d) = Ok (c', d') →
     ∃ news, iterations R xs c news ∧
             c' = (c + Z.of_nat (length news))%Z ∧ d' = apply_writes news d.
Proof.
  intros Hbody. induction xs as [|x xs IH]; intros c d c' d'; simpl.
  - intros [= <- <-]. exists []. split; [constructor|].
    split; [simpl; lia|]. by rewrite apply_writes_nil.
  - destruct (body x (c, d)) as [[c1 d1]| |] eqn:E; simpl; [|done|done].
    intros Hrest. destruct (Hbody _ _ _ _ _ E) as (l & Hl & -> & ->).
    destruct (IH _ _ _ _ Hrest) as (rest & Hr & -> & ->).
    exists (l ++ rest). split; [by constructor|].
    split; [rewrite length_app; lia|]. by rewrite apply_writes_app.
Qed.

(** ** The functions follow the relations *)

Section soundness.
Context (fuel : nat) (orig : AudioSegment) (id : string) (lower upper : Q).

Lemma chop_in_subdivider (vs : Timeline) (sr : Q) (split : Z * Z)
    (c c' : Z) (d d' : dict) :
  ¬ sr == 0 →
  upper < sub_duration vs sr split →
  chop_long_segment_duration fuel (sub_duration vs sr split) upper orig vs
    split.1 sr id d c = Ok (c', d') →
  ∃ l, sub_span_emits orig id lower upper vs sr split c l ∧
       c' = (c + Z.of_nat (length l))%Z ∧ d' = apply_writes l d.
Proof.
  intros Hsr Hlong Hcall.
  destruct (while_halve fuel (sub_duration vs sr split / 2) upper)
    as [cl| |] eqn:Hw;
    [|unfold chop_long_segment_duration in Hcall; by rewrite Hw in Hcall..].
  destruct (while_halve_inv _ _ _ _ Hw) as (k & Hk & Hle).
  assert (Hlow : upper / 2 < cl).
  { eapply while_halve_lower; [|exact Hw]. qlra. }
  destruct (Qeq_bool cl 0) eqn:Hz.
  { unfold chop_long_segment_duration, truediv in Hcall.
    rewrite Hw in Hcall. cbn [mbind result_bind] in Hcall.
    by rewrite Hz in Hcall. }
  apply Qeq_bool_neq in Hz.
  rewrite (chop_exact _ _ _ _ _ _ _ _ _ _ cl Hsr Hz Hw) in Hcall.
  injection Hcall as <- <-. eexists. split; [|done].
  eapply sub_chop with (k := k); [done| |done|done].
  by rewrite <- halved_shift.
Qed.

Lemma process_non_mute_segment_sound (vs : Timeline) (sr : Q) (split : Z * Z)
    (c c' : Z) (d d' : dict) :
  process_non_mute_segment fuel orig vs sr lower upper id split (c, d)
    = Ok (c', d') →
  ∃ l, sub_span_emits orig id lower upper vs sr split c l ∧
       c' = (c + Z.of_nat (length l))%Z ∧ d' = apply_writes l d.
Proof.
  destruct split as [s e]. unfold process_non_mute_segment.
  destruct (Qeq_bool sr 0) eqn:Hsr.
  { unfold frame_to_sec, truediv. by rewrite Hsr. }
  apply Qeq_bool_neq in Hsr.
  rewrite !(frame_to_sec_ok _ _ Hsr). cbn [mbind result_bind].
  change (start vs + inject_Z e / sr - (start vs + inject_Z s / sr))
    with (sub_duration vs sr (s, e)).
  destruct (Qle_bool lower (sub_duration vs sr (s, e))) eqn:Hlo;
    [destruct (Qle_bool (sub_duration vs sr (s, e)) upper) eqn:Hup|];
    cbn [andb].
  - intros [= <- <-]. eexists. split.
    + apply sub_accept; by apply Qle_bool_iff.
    + split; [done|]. by rewrite apply_writes_setitem.
  - apply not_true_iff_false in Hup. rewrite Qle_bool_iff in Hup.
    apply Qnot_le_lt in Hup. pose proof Hup as Hup'.
    apply Qltb_lt in Hup'. rewrite Hup'.
    by apply (chop_in_subdivider vs sr (s, e)).
  - apply not_true_iff_false in Hlo. rewrite Qle_bool_iff in Hlo.
    apply Qnot_le_lt in Hlo.
    destruct (Qltb upper (sub_duration vs sr (s, e))) eqn:Hup.
    + apply Qltb_lt in Hup. by apply (chop_in_subdivider vs sr (s, e)).
    + apply Qltb_ge in Hup. intros [= <- <-]. exists []. split.
      * by apply sub_discard.
      * split; [simpl; lia|]. by rewrite apply_writes_nil.
Qed.

Lemma process_non_mute_segments_sound (runs : list (Z * Z)) (vs : Timeline)
    (sr : Q) (c c' : Z) (d d' : dict) :
  process_non_mute_segments fuel runs orig vs sr lower upper id c d
    = Ok (c', d') →
  ∃ news, iterations (sub_span_emits orig id lower upper vs sr) runs c news ∧
          c' = (c + Z.of_nat (length news))%Z ∧ d' = apply_writes news d.
Proof.
  apply for_each_iterations. intros x c0 d0 c1 d1.
  apply process_non_mute_segment_sound.
Qed.

Lemma span_sound (vs : Timeline) (len sr : Q) (runs : list (Z * Z))
    (c c' : Z) (d d' : dict) :
  (if Qle_bool lower len && Qle_bool len upper then
     Ok ((c + 1)%Z,
         setitem Classifier
           (segment_key id c (sec_to_millis (start vs)) (sec_to_millis (end_ vs)))
           (getitem orig (sec_to_millis (start vs)) (sec_to_millis (end_ vs))) d)
   else if Qltb upper len then
     process_non_mute_segments fuel runs orig vs sr lower upper id c d
   else Ok (c, d)) = Ok (c', d') →
  ∃ l, span_emits orig id lower upper vs len sr runs c l ∧
       c' = (c + Z.of_nat (length l))%Z ∧ d' = apply_writes l d.
Proof.
  destruct (Qle_bool lower len) eqn:Hlo;
    [destruct (Qle_bool len upper) eqn:Hup|]; cbn [andb].
  - intros [= <- <-]. eexists. split.
    + apply span_accept; by apply Qle_bool_iff.
    + split; [done|]. by rewrite apply_writes_setitem.
  - apply not_true_iff_false in Hup. rewrite Qle_bool_iff in Hup.
    apply Qnot_le_lt in Hup. pose proof Hup as Hup'.
    apply Qltb_lt in Hup'. rewrite Hup'. intros Hcall.
    destruct (process_non_mute_segments_sound _ _ _ _ _ _ _ Hcall)
      as (news & Hn & -> & ->).
    exists news. split; [by apply span_subdivide|done].
  - apply not_true_iff_false in Hlo. rewrite Qle_bool_iff in Hlo.
    apply Qnot_le_lt in Hlo.
    destruct (Qltb upper len) eqn:Hup.
    + apply Qltb_lt in Hup. intros Hcall.
      destruct (process_non_mute_segments_sound _ _ _ _ _ _ _ Hcall)
        as (news & Hn & -> & ->).
      exists news. split; [by apply span_subdivide|done].
    + apply Qltb_ge in Hup. intros [= <- <-]. exists []. split.
      * by apply span_discard.
      * split; [simpl; lia|]. by rewrite apply_writes_nil.
Qed.

Lemma get_split_audio_loop_sound (timeline : list Timeline) (sr : Q)
    (effects_split : Z → Z → list (Z * Z)) (c c' : Z) (d d' : dict) :
  get_split_audio_loop fuel timeline orig sr effects_split id lower upper c d
    = Ok (c', d') →
  ∃ news, iterations (pyannote_emits orig id lower upper sr effects_split) timeline c news ∧
          c' = (c + Z.of_nat (length news))%Z ∧ d' = apply_writes news d.
Proof.
  apply for_each_iterations. intros vs c0 d0 c1 d1.
  unfold classify_vad_span. apply span_sound.
Qed.

Lemma get_split_audio_using_silero_loop_sound (speech_timestamps : list (Z * Z))
    (effects_split : Z → Z → list (Z * Z)) (c c' : Z) (d d' : dict) :
  get_split_audio_using_silero_loop fuel speech_timestamps orig effects_split
    id lower upper c d = Ok (c', d') →
  ∃ news, iterations (silero_emits orig id lower upper effects_split) speech_timestamps c news ∧
          c' = (c + Z.of_nat (length news))%Z ∧ d' = apply_writes news d.
Proof.
  apply for_each_iterations. intros [s e] c0 d0 c1 d1.
  unfold classify_timestamp. apply (span_sound (silero_span (s, e))).
Qed.
End soundness.

(** ** Segment keys *)

Lemma all_digits_string_of_uint (d : uint) :
  all_digits (NilEmpty.string_of_uint d) = true.
Proof. induction d; simpl; done. Qed.

Lemma string_of_uint_inj (d d' : uint) :
  NilEmpty.string_of_uint d = NilEmpty.string_of_uint d' → d = d'.
Proof.
  intros H. apply (f_equal NilEmpty.uint_of_string) in H.
  rewrite !NilEmpty.usu in H. by injection H.
Qed.

Lemma of_uint_zfill (w : nat) (d : uint) : Pos.of_uint (zfill w d) = Pos.of_uint d.
Proof.
  unfold zfill. induction (w - nb_digits d)%nat as [|k IH]; simpl; done.
Qed.

Lemma of_uint_to_int_inj (z z' : Z) (d d' : uint) :
  Pos.of_uint d = Pos.of_uint d' →
  (Z.to_int z = Decimal.Pos d ∧ Z.to_int z' = Decimal.Pos d') ∨
  (Z.to_int z = Decimal.Neg d ∧ Z.to_int z' = Decimal.Neg d') →
  z = z'.
Proof.
  intros Hd Hz. rewrite <- (DecimalZ.of_to z), <- (DecimalZ.of_to z').
  destruct Hz as [[-> ->]|[-> ->]]; simpl; unfold Z.of_uint; by rewrite Hd.
Qed.

Lemma format_04_inj (z z' : Z) : format_04 z = format_04 z' → z = z'.
Proof.
  unfold format_04.
  destruct (Z.to_int z) as [d|d] eqn:E, (Z.to_int z') as [d'|d'] eqn:E'; intros H.
  - apply string_of_uint_inj, (f_equal Pos.of_uint) in H.
    rewrite !of_uint_zfill in H. eapply of_uint_to_int_inj; eauto.
  - apply (f_equal all_digits) in H.
    by rewrite all_digits_string_of_uint in H.
  - apply (f_equal all_digits) in H.
    by rewrite all_digits_string_of_uint in H.
  - injection H as H. apply string_of_uint_inj, (f_equal Pos.of_uint) in H.
    rewrite !of_uint_zfill in H. eapply of_uint_to_int_inj; eauto.
Qed.

Lemma is_number_format_04 (z : Z) : is_number (format_04 z) = true.
Proof.
  unfold format_04. destruct (Z.to_int z) as [d|d].
  - pose proof (all_digits_string_of_uint (zfill 4 d)) as H.
    destruct (NilEmpty.string_of_uint (zfill 4 d)) as [|a s]; [done|].
    simpl in *. apply andb_true_iff in H as [Ha Hs].
    destruct (Ascii.eqb_spec a "-") as [->|Hne]; [done|].
    assert (is_digit a && all_digits s = true) as Hd by by rewrite Ha, Hs.
    revert Hd. clear. destruct a as [[] [] [] [] [] [] [] []]; try done.
  - simpl. apply all_digits_string_of_uint.
Qed.

(** Two strings that agree up to and including a first underscore, when the
    parts before it are numbers. *)
Lemma number_field_inj (u u' r r' : string) :
  is_number u = true → is_number u' = true →
  u +:+ String "_" r = u' +:+ String "_" r' → u = u'.
Proof.
  assert (Hd : ∀ v v' w w', all_digits v = true → all_digits v' = true →
             v +:+ String "_" w = v' +:+ String "_" w' → v = v').
  { induction v as [|a v IH]; intros [|a' v'] w w' Hv Hv' H; simpl in *.
    - done.
    - injection H as <- _. done.
    - injection H as -> _. done.
    - injection H as <- H. f_equal.
      apply andb_true_iff in Hv as [_ Hv]. apply andb_true_iff in Hv' as [_ Hv'].
      by eapply IH. }
  intros Hu Hu' H.
  assert (Hsign : ∀ v, is_number v = true →
            (∃ t, v = String "-" t ∧ all_digits t = true) ∨ all_digits v = true).
  { intros [|a v]; [by right|]. simpl.
    destruct (Ascii.eqb_spec a "-") as [->|Hne].
    - intros Hv. left. by exists v.
    - intros Hv. right.
      destruct a as [[] [] [] [] [] [] [] []]; try done. }
  destruct (Hsign u Hu) as [(t & -> & Ht)|Hdu],
           (Hsign u' Hu') as [(t' & -> & Ht')|Hdu'].
  - simpl in H. injection H as H. f_equal. by eapply Hd.
  - destruct u' as [|a' v']; simpl in H; [done|].
    injection H as <- _. done.
  - destruct u as [|a v]; simpl in H; [done|].
    injection H as -> _. done.
  - by eapply Hd.
Qed.

(** Keys built with different sequence numbers differ. *)
Lemma segment_key_inj (id : string) (c c' : Z) (s e s' e' : Q) :
  segment_key id c s e = segment_key id c' s' e' → c = c'.
Proof.
  unfold segment_key. intros H.
  apply String.app_inj in H. simpl in H. injection H as H.
  apply format_04_inj. eapply number_field_inj; [| |exact H];
    apply is_number_format_04.
Qed.

(** ** Sequence numbers of the writes *)

Lemma well_keyed_nil (id : string) (c : Z) : well_keyed id c [].
Proof. intros i e. by rewrite lookup_nil. Qed.

Lemma well_keyed_app (id : string) (c : Z) (l1 l2 : list emission) :
  well_keyed id c l1 →
  well_keyed id (c + Z.of_nat (length l1)) l2 →
  well_keyed id c (l1 ++ l2).
Proof.
  intros H1 H2 i e Hi. apply lookup_app_Some in Hi as [Hi|[Hge Hi]].
  - by apply H1.
  - rewrite (H2 _ _ Hi). f_equal. lia.
Qed.

Lemma well_keyed_accept (orig : AudioSegment) (id : string) (st : stage)
    (c : Z) (s e : Q) :
  well_keyed id c [accept_emission orig id st c s e].
Proof.
  intros [|i] x; simpl; [|by rewrite lookup_nil].
  intros [= <-]. simpl. by rewrite Z.add_0_r.
Qed.

Lemma lookup_chop_emissions cl n orig vs off id c (i : nat) (e : emission) :
  chop_emissions cl n orig vs off id c !! i = Some e ↔
  e = chop_emission cl n orig vs off id c (Z.of_nat i) ∧ (Z.of_nat i < n)%Z.
Proof.
  unfold chop_emissions, range. rewrite list_lookup_fmap, fmap_Some. split.
  - intros (j & Hj & ->). apply lookup_seqZ in Hj as [-> Hlt]. done.
  - intros [-> Hlt]. exists (Z.of_nat i). split; [|done].
    apply lookup_seqZ. split; [lia|done].
Qed.

Lemma well_keyed_chop cl n orig vs off id c :
  well_keyed id c (chop_emissions cl n orig vs off id c).
Proof. intros i e Hi. by apply lookup_chop_emissions in Hi as [-> _]. Qed.

Lemma iterations_well_keyed {A : Type} (R : A → Z → list emission → Prop)
    (id : string) :
  (∀ x c l, R x c l → well_keyed id c l) →
  ∀ xs c news, iterations R xs c news → well_keyed id c news.
Proof.
  intros HR xs c news H. induction H as [c|x xs c l rest Hl _ IH].
  - apply well_keyed_nil.
  - apply well_keyed_app; [by eapply HR|done].
Qed.

Lemma iterations_Forall {A : Type} (R : A → Z → list emission → Prop)
    (P : emission → Prop) :
  (∀ x c l, R x c l → Forall P l) →
  ∀ xs c news, iterations R xs c news → Forall P news.
Proof.
  intros HR xs c news H. induction H as [c|x xs c l rest Hl _ IH].
  - constructor.
  - apply Forall_app. split; [by eapply HR|done].
Qed.

Lemma sub_span_well_keyed orig id lower upper vs sr split c l :
  sub_span_emits orig id lower upper vs sr split c l → well_keyed id c l.
Proof.
  intros [split' c' _ _|split' c' k cl _ _ _ _|split' c' _ _].
  - apply well_keyed_accept.
  - apply well_keyed_chop.
  - apply well_keyed_nil.
Qed.

Lemma span_well_keyed orig id lower upper vs len sr runs c l :
  span_emits orig id lower upper vs len sr runs c l → well_keyed id c l.
Proof.
  intros [c' _ _|c' news _ Hn|c' _ _].
  - apply well_keyed_accept.
  - revert Hn. apply iterations_well_keyed. intros x c0 l0.
    apply sub_span_well_keyed.
  - apply well_keyed_nil.
Qed.

Lemma well_keyed_NoDup (id : string) (c : Z) (news : list emission) :
  well_keyed id c news → NoDup (em_key <$> news).
Proof.
  intros Hk. apply NoDup_alt. intros i j k Hi Hj.
  rewrite list_lookup_fmap, fmap_Some in Hi, Hj.
  destruct Hi as (e & He & ->), Hj as (e' & He' & Heq).
  rewrite (Hk _ _ He), (Hk _ _ He') in Heq.
  apply segment_key_inj in Heq. lia.
Qed.

(** ** Keys not yet in use *)

Lemma fresh_empty (id : string) (c : Z) : fresh id c ∅.
Proof. intros c' s e _. apply lookup_empty. Qed.

Lemma well_keyed_tail (id : string) (c : Z) (e : emission) (l : list emission) :
  well_keyed id c (e :: l) → well_keyed id (c + 1) l.
Proof.
  intros H i x Hi. rewrite (H (S i) x Hi). f_equal. lia.
Qed.

Lemma fresh_insert (id : string) (c : Z) (s e : Q) (v : AudioSegment)
    (m : gmap string AudioSegment) :
  fresh id c m → fresh id (c + 1) (<[segment_key id c s e := v]> m).
Proof.
  intros Hf c' s' e' Hc. rewrite lookup_insert_ne; [apply Hf; lia|].
  intros Heq. apply segment_key_inj in Heq. lia.
Qed.

Lemma replay_fresh (id : string) (news : list emission) :
  ∀ (c : Z) (m : gmap string AudioSegment),
    well_keyed id c news → fresh id c m →
    fresh id (c + Z.of_nat (length news)) (replay news m) ∧
    size (replay news m) = (size m + length news)%nat ∧
    (∀ k v, m !! k = Some v → replay news m !! k = Some v).
Proof.
  induction news as [|e l IH]; intros c m Hk Hf.
  - simpl. rewrite Z.add_0_r. split; [done|]. split; [lia|done].
  - pose proof (Hk 0%nat e eq_refl) as He. simpl in He. rewrite Z.add_0_r in He.
    assert (Hnone : m !! em_key e = None) by (rewrite He; apply Hf; lia).
    destruct (IH (c + 1)%Z (<[em_key e := em_segment e]> m)) as (Hf' & Hs & Hold).
    { by eapply well_keyed_tail. }
    { rewrite He. by apply fresh_insert. }
    change (replay (e :: l) m) with (replay l (<[em_key e := em_segment e]> m)).
    split; [|split].
    + replace (c + Z.of_nat (length (e :: l)))%Z
        with (c + 1 + Z.of_nat (length l))%Z by (simpl; lia). done.
    + rewrite Hs, map_size_insert_None by done. simpl. lia.
    + intros k v Hkv. apply Hold. rewrite lookup_insert_ne; [done|].
      intros <-. by rewrite Hnone in Hkv.
Qed.

(** Every write of [news] is still readable after all of them. *)
Lemma replay_lookup_new (id : string) (news : list emission) :
  ∀ (c : Z) (m : gmap string AudioSegment) (i : nat) (e : emission),
    well_keyed id c news → fresh id c m → news !! i = Some e →
    replay news m !! em_key e = Some (em_segment e).
Proof.
  induction news as [|x l IH]; intros c m i e Hk Hf Hi; [by rewrite lookup_nil in Hi|].
  pose proof (Hk 0%nat x eq_refl) as Hx. simpl in Hx. rewrite Z.add_0_r in Hx.
  change (replay (x :: l) m) with (replay l (<[em_key x := em_segment x]> m)).
  assert (Hf' : fresh id (c + 1) (<[em_key x := em_segment x]> m)).
  { rewrite Hx. by apply fresh_insert. }
  destruct i as [|i]; simpl in Hi.
  - injection Hi as ->.
    destruct (replay_fresh id l (c + 1)%Z (<[em_key e := em_segment e]> m))
      as (_ & _ & Hold); [by eapply well_keyed_tail|done|].
    apply Hold, lookup_insert_eq.
  - eapply IH; [by eapply well_keyed_tail|exact Hf'|exact Hi].
Qed.

(** ** Durations of the writes *)

Lemma duration_getitem (orig : AudioSegment) (a b : Q) :
  duration (getitem orig (sec_to_millis a) (sec_to_millis b)) == b - a.
Proof. unfold duration, getitem, sec_to_millis. simpl. field. Qed.

Lemma duration_accept orig id st c (a b : Q) :
  duration (em_segment (accept_emission orig id st c (sec_to_millis a)
                          (sec_to_millis b))) == b - a.
Proof. apply duration_getitem. Qed.

Lemma duration_chop cl n orig vs off id c (i : Z) :
  duration (em_segment (chop_emission cl n orig vs off id c i)) == cl.
Proof.
  unfold chop_emission. cbn [em_segment]. rewrite duration_getitem.
  rewrite inject_Z_plus. change (inject_Z 1) with 1. ring.
Qed.

Lemma total_duration_app (l1 l2 : list emission) :
  total_duration (l1 ++ l2) == total_duration l1 + total_duration l2.
Proof.
  induction l1 as [|e l IH]; simpl.
  - ring.
  - unfold total_duration in *. simpl. rewrite IH. ring.
Qed.

Lemma total_duration_const (cl : Q) (l : list emission) :
  Forall (λ e, duration (em_segment e) == cl) l →
  total_duration l == inject_Z (Z.of_nat (length l)) * cl.
Proof.
  induction 1 as [|e l He _ IH].
  - simpl. unfold total_duration. simpl. ring.
  - unfold total_duration in *. cbn [foldr length].
    rewrite IH, He, Nat2Z.inj_succ. unfold Z.succ.
    rewrite inject_Z_plus. change (inject_Z 1) with 1. ring.
Qed.

Lemma Forall_chop_emissions (P : emission → Prop) cl n orig vs off id c :
  (∀ i : Z, (0 <= i < n)%Z → P (chop_emission cl n orig vs off id c i)) →
  Forall P (chop_emissions cl n orig vs off id c).
Proof.
  intros H. apply Forall_lookup. intros i e Hi.
  apply lookup_chop_emissions in Hi as [-> Hlt]. apply H. lia.
Qed.

Lemma total_duration_chop cl n orig vs off id c :
  total_duration (chop_emissions cl n orig vs off id c)
  == inject_Z (Z.max 0 n) * cl.
Proof.
  rewrite (total_duration_const cl).
  - rewrite length_chop_emissions.
    replace (Z.of_nat (Z.to_nat n)) with (Z.max 0 n) by lia. reflexivity.
  - apply Forall_chop_emissions. intros i _. apply duration_chop.
Qed.

Lemma halved_pos (k : nat) (x : Q) : 0 < x → 0 < halved k x.
Proof.
  intros Hx. induction k as [|k IH]; [done|]. rewrite halved_S. qlra.
Qed.

Lemma halved_nonneg (k : nat) (x : Q) : 0 <= x → 0 <= halved k x.
Proof.
  intros Hx. induction k as [|k IH]; [done|]. rewrite halved_S. qlra.
Qed.

(** [floor(D / cl)] chops of length [cl] fit in [D]; what is left is shorter
    than [cl]. *)
Lemma floor_chops_fit (D cl : Q) :
  0 < cl → 0 <= D →
  (0 <= Qfloor (D / cl))%Z ∧
  inject_Z (Qfloor (D / cl)) * cl <= D ∧
  D < (inject_Z (Qfloor (D / cl)) + 1) * cl.
Proof.
  intros Hcl HD.
  assert (Hq : 0 <= D / cl) by (apply Qle_shift_div_l; [done|]; by rewrite Qmult_0_l).
  split; [|split].
  - change 0%Z with (Qfloor 0). by apply Qfloor_resp_le.
  - apply Qle_trans with (D / cl * cl).
    + apply Qmult_le_compat_r; [apply Qfloor_le|by apply Qlt_le_weak].
    + apply Qle_lteq. right. field. intros E. rewrite E in Hcl. by apply Qlt_irrefl in Hcl.
  - apply Qle_lt_trans with (D / cl * cl).
    + apply Qle_lteq. right. field. intros E. rewrite E in Hcl. by apply Qlt_irrefl in Hcl.
    + apply Qmult_lt_compat_r; [done|].
      pose proof (Qlt_floor (D / cl)) as H. rewrite inject_Z_plus in H. exact H.
Qed.

Lemma sub_span_band orig id lower upper vs sr split c l :
  sub_span_emits orig id lower upper vs sr split c l →
  Forall (band_ok lower upper) l.
Proof.
  intros [split' c' Hlo Hup|split' c' k cl Hlong -> Hlow Hle|split' c' _ _].
  - repeat constructor; unfold in_band; cbn [em_stage];
      rewrite duration_accept; unfold sub_duration in *; qlra.
  - apply Forall_chop_emissions. intros i _. unfold band_ok. cbn [chop_emission em_stage].
    fold (chop_emission (halved (S k) (sub_duration vs sr split'))
            (py_int (sub_duration vs sr split' / halved (S k) (sub_duration vs sr split')))
            orig vs (inject_Z split'.1 / sr) id c' i).
    rewrite duration_chop. done.
  - constructor.
Qed.

Lemma span_band orig id lower upper vs len sr runs c l :
  len == end_ vs - start vs →
  span_emits orig id lower upper vs len sr runs c l →
  Forall (band_ok lower upper) l.
Proof.
  intros Hlen [c' Hlo Hup|c' news _ Hn|c' _ _].
  - repeat constructor; unfold in_band; cbn [em_stage];
      rewrite duration_accept, <- Hlen; done.
  - revert Hn. apply iterations_Forall. intros x c0 l0.
    apply sub_span_band.
  - constructor.
Qed.

Lemma sub_duration_frames (vs : Timeline) (sr : Q) (s e : Z) :
  ¬ sr == 0 → sub_duration vs sr (s, e) == inject_Z (e - s) / sr.
Proof.
  intros Hsr. unfold sub_duration, Z.sub. cbn [fst snd].
  rewrite inject_Z_plus, inject_Z_opp. by field.
Qed.

Lemma Qdiv_nonneg (x y : Q) : 0 <= x → 0 < y → 0 <= x / y.
Proof.
  intros Hx Hy. apply Qle_shift_div_l; [done|]. by rewrite Qmult_0_l.
Qed.

Lemma sub_span_total orig id lower upper vs sr (s e : Z) c l :
  0 < sr → (s <= e)%Z →
  sub_span_emits orig id lower upper vs sr (s, e) c l →
  total_duration l <= inject_Z (e - s) / sr.
Proof.
  intros Hsr Hse H.
  assert (Hsr' : ¬ sr == 0).
  { intros E. rewrite E in Hsr. by apply Qlt_irrefl in Hsr. }
  rewrite <- (sub_duration_frames vs sr s e Hsr').
  assert (HD : 0 <= sub_duration vs sr (s, e)).
  { rewrite sub_duration_frames by done. apply Qdiv_nonneg; [|done].
    change 0 with (inject_Z 0). rewrite <- Zle_Qle. lia. }
  remember (s, e) as split eqn:Hsplit.
  destruct H as [split c Hlo Hup|split c k cl Hlong -> Hlow Hle|split c Hlo Hup].
  - unfold total_duration. cbn [foldr]. rewrite duration_accept.
    unfold sub_duration. apply Qle_lteq. right. ring.
  - rewrite total_duration_chop.
    set (D := sub_duration vs sr split) in *.
    assert (Hcl : 0 < halved (S k) D).
    { pose proof (halved_nonneg (S k) D HD). qlra. }
    rewrite py_int_floor by (apply Qdiv_nonneg; done).
    destruct (floor_chops_fit D _ Hcl HD) as (Hn & Hfit & _).
    by rewrite Z.max_r.
  - done.
Qed.

Lemma iterations_total orig id lower upper vs sr :
  0 < sr →
  ∀ runs lo hi c news,
    runs_within lo hi runs = true →
    iterations (sub_span_emits orig id lower upper vs sr) runs c news →
    total_duration news <= inject_Z (hi - lo) / sr.
Proof.
  intros Hsr runs. induction runs as [|[s e] runs IH]; intros lo hi c news Hw Hit.
  - inversion Hit; subst. simpl in Hw. apply Z.leb_le in Hw.
    apply Qdiv_nonneg; [|done]. change 0 with (inject_Z 0).
    rewrite <- Zle_Qle. lia.
  - inversion Hit as [|x xs c0 l rest Hl Hrest]; subst.
    simpl in Hw. apply andb_true_iff in Hw as [Hw Hw3].
    apply andb_true_iff in Hw as [Hw1 Hw2].
    apply Z.leb_le in Hw1, Hw2.
    rewrite total_duration_app.
    pose proof (sub_span_total _ _ _ _ _ _ _ _ _ _ Hsr Hw2 Hl) as H1.
    pose proof (IH _ _ _ _ Hw3 Hrest) as H2.
    apply Qle_trans with (inject_Z (e - s) / sr + inject_Z (hi - e) / sr).
    + by apply Qplus_le_compat.
    + assert (Hsr' : ¬ sr == 0).
      { intros E. rewrite E in Hsr. by apply Qlt_irrefl in Hsr. }
      apply Qle_trans with (inject_Z (hi - s) / sr).
      * apply Qle_lteq. right. unfold Z.sub.
        rewrite !inject_Z_plus, !inject_Z_opp. by field.
      * apply Qmult_le_compat_r.
        -- rewrite <- Zle_Qle. lia.
        -- apply Qlt_le_weak, Qinv_lt_0_compat. done.
Qed.

(** * The claims *)

(** C8 (amended). In exact arithmetic: the unit converters compute
    [s * 1000], [f / sr] and [s * sr], and for a nonzero sampling rate
    [frame_to_sec] and [sec_to_frame] are inverse to each other.  In binary64
    each converter is one rounded operation and a round trip need not return
    its input. *)
Theorem unit_converters (s f sr : Q) :
  ¬ sr == 0 →
  sec_to_millis s = s * 1000 ∧
  frame_to_sec f sr = Ok (f / sr) ∧
  sec_to_frame s sr = s * sr ∧
  (∃ t, frame_to_sec (sec_to_frame s sr) sr = Ok t ∧ t == s) ∧
  (∃ t, frame_to_sec f sr = Ok t ∧ sec_to_frame t sr == f).
Proof.
  intros Hsr. split; [done|]. split; [by apply frame_to_sec_ok|].
  split; [done|]. split.
  - exists (sec_to_frame s sr / sr). split; [by apply frame_to_sec_ok|].
    unfold sec_to_frame. by field.
  - exists (f / sr). split; [by apply frame_to_sec_ok|].
    unfold sec_to_frame. by field.
Qed.

Lemma unit_converters_witness :
  sec_to_millis (3 # 2) = (3 # 2) * 1000 ∧
  frame_to_sec 24000 16000 = Ok (24000 / 16000) ∧
  sec_to_frame (3 # 2) 16000 = (3 # 2) * 16000 ∧
  (∃ t, frame_to_sec (sec_to_frame (3 # 2) 16000) 16000 = Ok t ∧ t == 3 # 2) ∧
  (∃ t, frame_to_sec 24000 16000 = Ok t ∧ sec_to_frame t 16000 == 24000).
Proof. apply (unit_converters (3 # 2) 24000 16000). vm_compute. discriminate. Defined.

(** For [D > U > 0], [ceil(log2(D / U))] is some [n + 1] with
    [D <= 2^(n+1) * U]. *)
Lemma ceil_log2_ratio (D U : Q) :
  0 < U → U < D →
  ∃ n : nat, ceil_log2 (D / U) = S n ∧ D <= pow2 (S n) * U.
Proof.
  intros HU HD.
  assert (HU' : ¬ U == 0).
  { intros E. rewrite E in HU. by apply Qlt_irrefl in HU. }
  assert (Hn : (1 <= ceil_log2 (D / U))%nat).
  { apply ceil_log2_pos. apply Qlt_shift_div_l; [done|]. by rewrite Qmult_1_l. }
  destruct (ceil_log2 (D / U)) as [|n] eqn:E; [lia|].
  exists n. split; [done|].
  pose proof (ceil_log2_spec (D / U)) as H. rewrite E in H.
  apply Qle_trans with (D / U * U).
  - apply Qle_lteq. right. by field.
  - apply Qmult_le_compat_r; [done|by apply Qlt_le_weak].
Qed.

(** If [D <= 2^(n+1) * U], the first halving and at most [n] executions of
    the loop body bring [D] down to at most [U]. *)
Lemma halving_from_bound (n : nat) (D U : Q) :
  D <= pow2 (S n) * U →
  ∃ k : nat,
    (1 <= k ∧ k <= S n)%nat ∧ halved k D <= U ∧
    ∀ fuel, (k - 1 <= fuel)%nat → while_halve fuel (D / 2) U = Ok (halved k D).
Proof.
  intros Hspec.
  destruct (while_halve_bounded n (D / 2) U) as (k & Hk & Hle & Hf).
  { rewrite pow2_S in Hspec. apply Qle_shift_div_r; [reflexivity|].
    eapply Qle_trans; [exact Hspec|]. apply Qle_lteq. right. ring. }
  exists (S k). rewrite halved_shift in Hle, Hf.
  split; [lia|]. split; [done|].
  intros fuel Hfuel. apply Hf. lia.
Qed.

(** C4. For [D > upper_limit > 0] the halving of the chopper terminates: with
    [k] halvings in all (the first, [D / 2], and [k - 1] executions of the
    loop body), [1 <= k <= ceil(log2(D / upper_limit))], the loop returns
    [D / 2^k], which is at most [upper_limit]. *)
Theorem chopper_halving_terminates (D upper_limit : Q) :
  0 < upper_limit → upper_limit < D →
  ∃ k : nat,
    (1 <= k ∧ k <= ceil_log2 (D / upper_limit))%nat ∧
    (∀ fuel, (k - 1 <= fuel)%nat →
       while_halve fuel (D / 2) upper_limit = Ok (halved k D)) ∧
    halved k D == D / pow2 k ∧
    halved k D <= upper_limit.
Proof.
  intros HU HD.
  destruct (ceil_log2_ratio D upper_limit HU HD) as (n & Hn & Hspec).
  destruct (halving_from_bound n D upper_limit Hspec) as (k & Hk & Hle & Hf).
  exists k. rewrite Hn.
  split; [exact Hk|]. split; [exact Hf|].
  split; [apply halved_pow2|exact Hle].
Qed.

Lemma chopper_halving_terminates_witness :
  ∃ k : nat,
    (1 <= k ∧ k <= ceil_log2 (20 / 8))%nat ∧
    (∀ fuel, (k - 1 <= fuel)%nat → while_halve fuel (20 / 2) 8 = Ok (halved k 20)) ∧
    halved k 20 == 20 / pow2 k ∧
    halved k 20 <= 8.
Proof. apply (chopper_halving_terminates 20 8); reflexivity. Defined.

Lemma halved_div_pow2 (k : nat) (D : Q) :
  0 < D → D / halved k D == pow2 k.
Proof.
  intros HD. rewrite halved_pow2. pose proof (pow2_pos k) as Hp.
  field. split; intros E; [rewrite E in Hp|rewrite E in HD];
    eapply Qlt_irrefl; eassumption.
Qed.

(** X11. In exact arithmetic, measuring a chop by the bounds of the slice
    requested for it: once the halving has returned [chop_length], the
    chopper writes exactly [floor(duration / chop_length)] chops: chop [i] is
    the slice requested from [base + i * chop_length] to
    [base + (i + 1) * chop_length] (in milliseconds), of width
    [chop_length], under sequence number [counter + i]; no lower limit
    enters the function.  The chops end at [base + n_chops * chop_length];
    what is left of the sub-span is shorter than [chop_length] and is not
    written. *)
Theorem chopper_partition (fuel : nat) (D upper_limit : Q) (orig : AudioSegment)
    (vs : Timeline) (split_start : Z) (sr : Q) (id : string) (d : dict)
    (counter : Z) (chop_length : Q) :
  ¬ sr == 0 → 0 < D →
  while_halve fuel (D / 2) upper_limit = Ok chop_length →
  let n_chops := Qfloor (D / chop_length) in
  let base := start vs + inject_Z split_start / sr in
  ∃ news : list emission,
    chop_long_segment_duration fuel D upper_limit orig vs split_start sr id d
      counter = Ok ((counter + n_chops)%Z, apply_writes news d) ∧
    (0 <= n_chops)%Z ∧ length news = Z.to_nat n_chops ∧
    (∀ (i : nat) (e : emission), news !! i = Some e →
       em_stage e = Chopper (Z.of_nat i) n_chops ∧
       seg_start_ms (em_segment e)
         = sec_to_millis (base + chop_length * inject_Z (Z.of_nat i)) ∧
       seg_end_ms (em_segment e)
         = sec_to_millis (base + chop_length * inject_Z (Z.of_nat i + 1)) ∧
       em_key e = segment_key id (counter + Z.of_nat i)
                    (seg_start_ms (em_segment e)) (seg_end_ms (em_segment e)) ∧
       duration (em_segment e) == chop_length) ∧
    inject_Z n_chops * chop_length <= D ∧
    D < (inject_Z n_chops + 1) * chop_length.
Proof.
  intros Hsr HD Hw n_chops base.
  destruct (while_halve_inv _ _ _ _ Hw) as (k & Hk & _).
  rewrite halved_shift in Hk.
  assert (Hcl : 0 < chop_length) by (rewrite Hk; by apply halved_pos).
  assert (Hcl' : ¬ chop_length == 0).
  { intros E. rewrite E in Hcl. by apply Qlt_irrefl in Hcl. }
  destruct (floor_chops_fit D chop_length Hcl (Qlt_le_weak _ _ HD))
    as (Hn & Hfit & Hrest).
  assert (Hint : py_int (D / chop_length) = n_chops).
  { apply py_int_floor, Qdiv_nonneg; [by apply Qlt_le_weak|done]. }
  pose proof (chop_exact fuel D upper_limit orig vs split_start sr id d counter
                chop_length Hsr Hcl' Hw) as Hex.
  cbv zeta in Hex. rewrite Hint in Hex.
  eexists. split; [|split; [done|split; [apply length_chop_emissions|]]].
  - rewrite Hex, length_chop_emissions. do 2 f_equal. lia.
  - split; [|done]. intros i e Hi.
    apply lookup_chop_emissions in Hi as [-> Hlt].
    split; [done|]. split; [done|]. split; [done|]. split; [done|].
    apply duration_chop.
Qed.

Lemma chopper_partition_witness :
  ∃ news : list emission,
    chop_long_segment_duration 0 9 8 {| seg_start_ms := 0; seg_end_ms := 20000 |}
      {| start := 2; end_ := 11 |} 0 16000 "a" empty_dict 1
      = Ok ((1 + Qfloor (9 / (9 / 2)))%Z, apply_writes news empty_dict) ∧
    length news = Z.to_nat (Qfloor (9 / (9 / 2))).
Proof.
  destruct (chopper_partition 0 9 8 {| seg_start_ms := 0; seg_end_ms := 20000 |}
              {| start := 2; end_ := 11 |} 0 16000 "a" empty_dict 1 (9 / 2))
    as (news & H1 & _ & H2 & _).
  - vm_compute. discriminate.
  - reflexivity.
  - reflexivity.
  - exists news. split; [exact H1|exact H2].
Defined.

(** C9. Over exact numbers, for [D > upper_limit > 0] the final chop length
    is [D / 2^k] with [k >= 1], [floor(D / chop_length)] is [2^k], and the
    [2^k] chops tile the sub-span: each chop ends where the next begins, the
    first begins at the sub-span's start and the last ends at its end, their
    durations sum to [D], and nothing is left over. *)
Theorem chopper_exact_tiling (D upper_limit : Q) (orig : AudioSegment)
    (vs : Timeline) (split_start : Z) (sr : Q) (id : string) (d : dict)
    (counter : Z) :
  ¬ sr == 0 → 0 < upper_limit → upper_limit < D →
  let base := start vs + inject_Z split_start / sr in
  ∃ (k : nat) (news : list emission),
    (1 <= k)%nat ∧
    halved k D == D / pow2 k ∧
    Qfloor (D / halved k D) = (2 ^ Z.of_nat k)%Z ∧
    (∀ fuel, (k - 1 <= fuel)%nat →
       while_halve fuel (D / 2) upper_limit = Ok (halved k D) ∧
       chop_long_segment_duration fuel D upper_limit orig vs split_start sr id
         d counter = Ok ((counter + 2 ^ Z.of_nat k)%Z, apply_writes news d)) ∧
    length news = Z.to_nat (2 ^ Z.of_nat k) ∧
    (∀ (i : nat) (e e' : emission),
       news !! i = Some e → news !! S i = Some e' →
       seg_end_ms (em_segment e) = seg_start_ms (em_segment e')) ∧
    (∀ e, news !! 0%nat = Some e →
       seg_start_ms (em_segment e) == sec_to_millis base) ∧
    (∀ e, last news = Some e →
       seg_end_ms (em_segment e) == sec_to_millis (base + D)) ∧
    total_duration news == D ∧
    D - inject_Z (2 ^ Z.of_nat k) * halved k D == 0.
Proof.
  intros Hsr HU HD base.
  destruct (ceil_log2_ratio D upper_limit HU HD) as (n & _ & Hspec).
  destruct (halving_from_bound n D upper_limit Hspec)
    as (k & [Hk1 Hk2] & Hle & Hf).
  pose proof (halved_pow2 k D) as Hpow.
  assert (HD0 : 0 < D) by qlra.
  assert (Hcl : 0 < halved k D) by by apply halved_pos.
  assert (Hcl' : ¬ halved k D == 0).
  { intros E. rewrite E in Hcl. by apply Qlt_irrefl in Hcl. }
  assert (Hp : (0 <= 2 ^ Z.of_nat k)%Z) by (apply Z.pow_nonneg; lia).
  assert (Hint : py_int (D / halved k D) = (2 ^ Z.of_nat k)%Z).
  { apply py_int_integer; [done|]. by apply halved_div_pow2. }
  assert (Hfl : Qfloor (D / halved k D) = (2 ^ Z.of_nat k)%Z).
  { rewrite <- py_int_floor; [done|]. apply Qdiv_nonneg; [by apply Qlt_le_weak|done]. }
  assert (Hexact : inject_Z (2 ^ Z.of_nat k) * halved k D == D).
  { rewrite Hpow. fold (pow2 k). field.
    intros E. pose proof (pow2_pos k) as Hp2. rewrite E in Hp2.
    by apply Qlt_irrefl in Hp2. }
  set (news := chop_emissions (halved k D) (2 ^ Z.of_nat k) orig vs
                 (inject_Z split_start / sr) id counter).
  exists k, news.
  split; [done|]. split; [done|]. split; [done|]. split.
  { intros fuel Hfuel. split; [by apply Hf|].
    pose proof (chop_exact fuel D upper_limit orig vs split_start sr id d counter
                  (halved k D) Hsr Hcl' (Hf fuel Hfuel)) as Hex.
    cbv zeta in Hex. rewrite Hint in Hex. fold news in Hex.
    rewrite Hex. unfold news. rewrite length_chop_emissions.
    do 2 f_equal. lia. }
  split; [apply length_chop_emissions|].
  split.
  { intros i e e' Hi Hi'.
    apply lookup_chop_emissions in Hi as [-> _].
    apply lookup_chop_emissions in Hi' as [-> _].
    cbn [chop_emission em_segment getitem seg_end_ms seg_start_ms].
    do 4 f_equal. lia. }
  split.
  { intros e Hi. apply lookup_chop_emissions in Hi as [-> _].
    cbn [chop_emission em_segment getitem seg_start_ms]. unfold sec_to_millis, base.
    change (inject_Z (Z.of_nat 0)) with 0. ring. }
  split.
  { intros e Hl. rewrite last_lookup in Hl.
    apply lookup_chop_emissions in Hl as [-> _].
    unfold news. rewrite length_chop_emissions.
    cbn [chop_emission em_segment getitem seg_end_ms]. unfold sec_to_millis, base.
    assert (Hidx : inject_Z (Z.of_nat (Init.Nat.pred (Z.to_nat (2 ^ Z.of_nat k))) + 1)
                   == inject_Z (2 ^ Z.of_nat k)).
    { assert (0 < 2 ^ Z.of_nat k)%Z by (apply Z.pow_pos_nonneg; lia).
      replace (Z.of_nat (Init.Nat.pred (Z.to_nat (2 ^ Z.of_nat k))) + 1)%Z
        with (2 ^ Z.of_nat k)%Z by lia. reflexivity. }
    rewrite Hidx, (Qmult_comm (halved k D)), Hexact. ring. }
  split.
  { unfold news. rewrite total_duration_chop, Z.max_r by done. exact Hexact. }
  rewrite Hexact. ring.
Qed.

Lemma chopper_exact_tiling_witness :
  ∃ (k : nat) (news : list emission),
    (1 <= k)%nat ∧
    Qfloor (20 / halved k 20) = (2 ^ Z.of_nat k)%Z ∧
    total_duration news == 20.
Proof.
  destruct (chopper_exact_tiling 20 8 {| seg_start_ms := 0; seg_end_ms := 30000 |}
              {| start := 2; end_ := 22 |} 0 16000 "a" empty_dict 1)
    as (k & news & H1 & _ & H2 & _ & _ & _ & _ & _ & H3 & _).
  - vm_compute. discriminate.
  - reflexivity.
  - reflexivity.
  - exists k, news. split; [exact H1|]. split; [exact H2|exact H3].
Defined.

Lemma Qle_bool_true (x y : Q) : x <= y → Qle_bool x y = true.
Proof. apply Qle_bool_iff. Qed.

Lemma Qle_bool_false (x y : Q) : y < x → Qle_bool x y = false.
Proof.
  intros H. apply not_true_iff_false. rewrite Qle_bool_iff. by apply Qlt_not_le.
Qed.

Lemma Qltb_false (x y : Q) : y <= x → Qltb x y = false.
Proof. apply Qltb_ge. Qed.



(** ** Every call appends well-keyed writes *)

Lemma chop_iteration_writes cl n orig vs split_start sr id (i c : Z) (d : dict)
    (c' : Z) (d' : dict) :
  chop_iteration cl n orig vs split_start sr id i (c, d) = Ok (c', d') →
  ∃ l, well_keyed id c l ∧ c' = (c + Z.of_nat (length l))%Z ∧ d' = apply_writes l d.
Proof.
  destruct (Qeq_bool sr 0) eqn:Hsr.
  { unfold chop_iteration, frame_to_sec, truediv. by rewrite Hsr. }
  apply Qeq_bool_neq in Hsr. rewrite chop_iteration_exact by done.
  intros [= <- <-].
  exists [chop_emission cl n orig vs (inject_Z split_start / sr) id (c - i) i].
  split; [|done].
  intros [|j] x; simpl; [|by rewrite lookup_nil].
  intros [= <-]. cbn [chop_emission em_key em_segment getitem seg_start_ms seg_end_ms].
  f_equal. lia.
Qed.

Lemma chop_writes fuel D U orig vs split_start sr id (c c' : Z) (d d' : dict) :
  chop_long_segment_duration fuel D U orig vs split_start sr id d c = Ok (c', d') →
  writes_from id c d c' d'.
Proof.
  unfold chop_long_segment_duration.
  destruct (while_halve fuel (D / 2) U) as [cl| |]; [|done..].
  cbn [mbind result_bind].
  destruct (truediv D cl) as [q| |]; [|done..]. cbn [mbind result_bind].
  intros H.
  destruct (for_each_iterations (λ _ c0 l, well_keyed id c0 l) _ _
              (chop_iteration_writes cl (py_int q) orig vs split_start sr id)
              _ _ _ _ H) as (news & Hit & -> & ->).
  exists news. split; [|done].
  revert Hit. by apply iterations_well_keyed.
Qed.

Lemma process_writes fuel runs orig vs sr lower upper id (c c' : Z) (d d' : dict) :
  process_non_mute_segments fuel runs orig vs sr lower upper id c d = Ok (c', d') →
  writes_from id c d c' d'.
Proof.
  intros H. destruct (process_non_mute_segments_sound _ _ _ _ _ _ _ _ _ _ _ _ H)
    as (news & Hit & -> & ->).
  exists news. split; [|done].
  revert Hit. apply iterations_well_keyed. intros x c0 l.
  apply sub_span_well_keyed.
Qed.

Lemma pyannote_loop_writes fuel timeline orig sr effects_split id lower upper
    (c c' : Z) (d d' : dict) :
  get_split_audio_loop fuel timeline orig sr effects_split id lower upper c d
    = Ok (c', d') →
  writes_from id c d c' d'.
Proof.
  intros H. destruct (get_split_audio_loop_sound _ _ _ _ _ _ _ _ _ _ _ _ H)
    as (news & Hit & -> & ->).
  exists news. split; [|done].
  revert Hit. apply iterations_well_keyed. intros x c0 l.
  apply span_well_keyed.
Qed.

Lemma silero_loop_writes fuel speech_timestamps orig effects_split id lower upper
    (c c' : Z) (d d' : dict) :
  get_split_audio_using_silero_loop fuel speech_timestamps orig effects_split id
    lower upper c d = Ok (c', d') →
  writes_from id c d c' d'.
Proof.
  intros H.
  destruct (get_split_audio_using_silero_loop_sound _ _ _ _ _ _ _ _ _ _ _ H)
    as (news & Hit & -> & ->).
  exists news. split; [|done].
  revert Hit. apply iterations_well_keyed. intros x c0 l.
  apply span_well_keyed.
Qed.

(** One iteration of each loop, likewise. *)
Lemma process_non_mute_segment_writes fuel orig vs sr lower upper id split
    (c c' : Z) (d d' : dict) :
  process_non_mute_segment fuel orig vs sr lower upper id split (c, d)
    = Ok (c', d') →
  writes_from id c d c' d'.
Proof.
  intros H. destruct (process_non_mute_segment_sound _ _ _ _ _ _ _ _ _ _ _ _ H)
    as (l & Hl & -> & ->).
  exists l. split; [by eapply sub_span_well_keyed|done].
Qed.

Lemma classify_vad_span_writes fuel orig sr effects_split id lower upper vs
    (c c' : Z) (d d' : dict) :
  classify_vad_span fuel orig sr effects_split id lower upper vs (c, d)
    = Ok (c', d') →
  writes_from id c d c' d'.
Proof.
  intros H. destruct (span_sound _ _ _ _ _ _ _ _ _ _ _ _ _ H) as (l & Hl & -> & ->).
  exists l. split; [by eapply span_well_keyed|done].
Qed.

Lemma classify_timestamp_writes fuel orig effects_split id lower upper ts
    (c c' : Z) (d d' : dict) :
  classify_timestamp fuel orig effects_split id lower upper ts (c, d)
    = Ok (c', d') →
  writes_from id c d c' d'.
Proof.
  destruct ts as [s e]. intros H.
  destruct (span_sound fuel orig id lower upper (silero_span (s, e)) _ _ _ _ _ _ _ H)
    as (l & Hl & -> & ->).
  exists l. split; [by eapply span_well_keyed|done].
Qed.

(** The states of a run stay [fresh]: the run starts from the empty dict, and
    every call takes a fresh state to a fresh state. *)
Lemma run_keeps_fresh (id : string) (c c' : Z) (d d' : dict) :
  writes_from id c d c' d' → fresh id c (items d) → fresh id c' (items d').
Proof.
  intros (news & Hk & -> & ->) Hf. cbn [apply_writes items].
  by apply replay_fresh.
Qed.

Lemma writes_from_only_adds (id : string) (c c' : Z) (d d' : dict) :
  fresh id c (items d) → writes_from id c d c' d' → only_adds c d c' d'.
Proof.
  intros Hf (news & Hk & -> & ->). cbn [apply_writes items].
  destruct (replay_fresh id news c (items d) Hk Hf) as (_ & Hs & Hold).
  unfold only_adds. cbn [apply_writes items].
  split; [done|]. rewrite Hs. split; lia.
Qed.

(** ** Claims on whole calls and whole runs *)

(** The claim C10 read on every call, for reference: a chopper call on a dict
    that already holds the key the call is about to build overwrites that
    entry, and the counter grows by more than the number of entries added. *)
Lemma only_adds_fails_on_key_clash :
  let orig := {| seg_start_ms := 0; seg_end_ms := 20000 |} in
  let d0 := setitem Classifier "a_0001_2000_to_6500" orig empty_dict in
  ∃ (c' : Z) (d' : dict),
    chop_long_segment_duration 0 9 8 orig {| start := 2; end_ := 11 |} 0 16000
      "a" d0 1 = Ok (c', d') ∧
    ¬ only_adds 1 d0 c' d'.
Proof.
  intros orig d0. eexists _, _. split; [vm_compute; reflexivity|].
  intros (_ & Hc & _). vm_compute in Hc. discriminate.
Qed.

(** C10 (amended). When no key of the dict carries a sequence number from
    the input counter on (as in every call made during a run), a call of
    [chop_long_segment_duration] or [process_non_mute_segments] that returns
    only adds entries: every key present before is still present with the same
    value, and the returned counter is the input counter plus the number of
    entries added, hence at least the input counter. *)
Theorem calls_only_add_entries (fuel : nat) (orig : AudioSegment) (vs : Timeline)
    (sr upper : Q) (id : string) (c c' : Z) (d d' : dict) :
  fresh id c (items d) →
  (∀ (D : Q) (split_start : Z),
     chop_long_segment_duration fuel D upper orig vs split_start sr id d c
       = Ok (c', d') → only_adds c d c' d') ∧
  (∀ (runs : list (Z * Z)) (lower : Q),
     process_non_mute_segments fuel runs orig vs sr lower upper id c d
       = Ok (c', d') → only_adds c d c' d').
Proof.
  intros Hf. split.
  - intros D split_start H. eapply writes_from_only_adds; [done|].
    by eapply chop_writes.
  - intros runs lower H. eapply writes_from_only_adds; [done|].
    by eapply process_writes.
Qed.

Lemma calls_only_add_entries_witness :
  let orig := {| seg_start_ms := 0; seg_end_ms := 20000 |} in
  let vs := {| start := 2; end_ := 11 |} in
  ∃ (c' : Z) (d' : dict),
    process_non_mute_segments 1 [(0, 32000); (40000, 144000)]%Z orig vs 16000 2 8
      "a" 1 empty_dict = Ok (c', d') ∧
    only_adds 1 empty_dict c' d'.
Proof.
  intros orig vs. eexists _, _. split; [vm_compute; reflexivity|].
  refine (proj2 (calls_only_add_entries 1 orig vs 16000 8 "a" 1 _ empty_dict _
                   (fresh_empty "a" 1))
            [(0, 32000); (40000, 144000)]%Z 2 _).
  vm_compute. reflexivity.
Defined.

Lemma format_04_width (z : Z) :
  (0 <= z <= 9999)%Z → String.length (format_04 z) = 4%nat.
Proof.
  intros Hz.
  assert (Hall : forallb (λ z, Nat.eqb (String.length (format_04 z)) 4)
                   (seqZ 0 10000) = true) by (vm_compute; reflexivity).
  rewrite forallb_forall in Hall. apply Nat.eqb_eq, Hall.
  apply list_elem_of_In, elem_of_seqZ. lia.
Qed.

Lemma writes_from_run_keys (id : string) (c : Z) (d : dict) :
  writes_from id 1 empty_dict c d → run_keys id c d.
Proof.
  intros (news & Hk & -> & ->). unfold run_keys, empty_dict.
  cbn [apply_writes emitted items app].
  destruct (replay_fresh id news 1 ∅ Hk (fresh_empty id 1)) as (_ & Hs & _).
  split; [done|]. split; [|split].
  - intros i e Hi. split; [by apply Hk|]. split.
    + eapply replay_lookup_new; [exact Hk|apply fresh_empty|exact Hi].
    + intros Hle. apply format_04_width. lia.
  - by eapply well_keyed_NoDup.
  - by rewrite Hs, map_size_empty.
Qed.

(** An entry of the dict is an entry it had before the writes, or one of
    the writes. *)
Lemma replay_lookup_origin (news : list emission) :
  ∀ (m : gmap string AudioSegment) (k : string) (seg : AudioSegment),
    replay news m !! k = Some seg →
    m !! k = Some seg ∨ ∃ e, e ∈ news ∧ em_key e = k ∧ em_segment e = seg.
Proof.
  induction news as [|x l IH]; intros m k seg Hl; [by left|].
  change (replay (x :: l) m) with (replay l (<[em_key x := em_segment x]> m)) in Hl.
  destruct (IH _ _ _ Hl) as [Hm|(e & He & Hke & Hse)].
  - destruct (decide (em_key x = k)) as [<-|Hne].
    + rewrite lookup_insert_eq in Hm. injection Hm as <-.
      right. exists x. split; [apply list_elem_of_here|done].
    + rewrite lookup_insert_ne in Hm by done. by left.
  - right. exists e. split; [by apply list_elem_of_further|done].
Qed.

(** With [lower_limit = 5] and [upper_limit = 8], a 9 s span without silence
    is chopped in two chops of 4.5 s: the first chop, which is not the final
    one, is already shorter than [lower_limit]. *)
Lemma first_chop_below_lower_limit :
  let orig := {| seg_start_ms := 0; seg_end_ms := 20000 |} in
  ∃ d : dict,
    get_split_audio 0 [{| start := 0; end_ := 9 |}] orig 16000
      (λ lo hi, [(0, hi - lo)]%Z) "a" 5 8 = Ok d ∧
    ¬ Forall (band_or_final_chop 5 8) (emitted d).
Proof.
  intros orig. eexists. split; [vm_compute; reflexivity|].
  cbn [emitted]. intros HF. apply Forall_cons in HF as [[[Hlo _]|[n Hn]] _].
  - vm_compute in Hlo. by apply Hlo.
  - injection Hn as H1 H2. lia.
Qed.

(** X10. In exact arithmetic, measuring a segment by the bounds of the slice
    requested for it: every segment of the dict returned by a run of either
    backend has a duration of at most [upper_limit].  The segments written by
    the classifier and by the subdivider have a duration of at least
    [lower_limit]; the chops of the Fixed-Width Chopper, all of one length,
    are longer than [upper_limit / 2]. *)
Theorem run_durations_bounded (fuel : nat) (orig : AudioSegment)
    (effects_split : Z → Z → list (Z * Z)) (id : string) (lower upper : Q)
    (d : dict) :
  ((∃ (timeline : list Timeline) (sr : Q),
      get_split_audio fuel timeline orig sr effects_split id lower upper = Ok d)
   ∨ (∃ speech_timestamps : list (Z * Z),
        get_split_audio_using_silero fuel speech_timestamps orig effects_split
          id lower upper = Ok d)) →
  (∀ e, e ∈ emitted d → band_ok lower upper e ∧ duration (em_segment e) <= upper) ∧
  (∀ k seg, items d !! k = Some seg →
     ∃ e, e ∈ emitted d ∧ em_key e = k ∧ em_segment e = seg).
Proof.
  intros Hrun.
  assert (Hnews : ∃ c news, d = apply_writes news empty_dict ∧
                    well_keyed id c news ∧ Forall (band_ok lower upper) news).
  { destruct Hrun as [(timeline & sr & H)|(ts & H)].
    - unfold get_split_audio in H.
      destruct (get_split_audio_loop _ _ _ _ _ _ _ _ _ _) as [[c d0]| |] eqn:E;
        cbn [mbind result_bind] in H; [|done..].
      injection H as ->.
      destruct (get_split_audio_loop_sound _ _ _ _ _ _ _ _ _ _ _ _ E)
        as (news & Hit & _ & ->).
      exists 1%Z, news. split; [done|]. split.
      + revert Hit. apply iterations_well_keyed. intros x c0 l. apply span_well_keyed.
      + revert Hit. apply iterations_Forall. intros x c0 l. by apply span_band.
    - unfold get_split_audio_using_silero in H.
      destruct (get_split_audio_using_silero_loop _ _ _ _ _ _ _ _ _)
        as [[c d0]| |] eqn:E; cbn [mbind result_bind] in H; [|done..].
      injection H as ->.
      destruct (get_split_audio_using_silero_loop_sound _ _ _ _ _ _ _ _ _ _ _ E)
        as (news & Hit & _ & ->).
      exists 1%Z, news. split; [done|]. split.
      + revert Hit. apply iterations_well_keyed. intros x c0 l. apply span_well_keyed.
      + revert Hit. apply iterations_Forall. intros [s e] c0 l.
        apply span_band. unfold silero_span. cbn [start end_ fst snd].
        unfold Z.sub. rewrite inject_Z_plus, inject_Z_opp. field. }
  destruct Hnews as (c & news & -> & Hk & HF).
  unfold empty_dict. cbn [apply_writes emitted items app]. split.
  - intros e He. rewrite Forall_forall in HF. pose proof (HF e He) as Hb.
    split; [done|]. unfold band_ok, in_band in Hb.
    destruct (em_stage e); tauto.
  - intros k seg Hl. destruct (replay_lookup_origin _ _ _ _ Hl) as [Hm|H]; [|done].
    by rewrite lookup_empty in Hm.
Qed.

Lemma run_durations_bounded_witness :
  let orig := {| seg_start_ms := 0; seg_end_ms := 20000 |} in
  ∃ d : dict,
    get_split_audio 0 [{| start := 0; end_ := 9 |}] orig 16000
      (λ lo hi, [(0, hi - lo)]%Z) "a" 5 8 = Ok d ∧
    ∀ e, e ∈ emitted d → band_ok 5 8 e ∧ duration (em_segment e) <= 8.
Proof.
  intros orig.
  assert (Hrun : ∃ d, get_split_audio 0 [{| start := 0; end_ := 9 |}] orig 16000
                        (λ lo hi, [(0, hi - lo)]%Z) "a" 5 8 = Ok d)
    by (eexists; vm_compute; reflexivity).
  destruct Hrun as [d Hd]. exists d. split; [exact Hd|].
  apply (run_durations_bounded 0 orig (λ lo hi, [(0, hi - lo)]%Z) "a" 5 8 d).
  left. exists [{| start := 0; end_ := 9 |}], 16000. exact Hd.
Defined.

Lemma py_int_le (x : Q) : 0 <= x → inject_Z (py_int x) <= x.
Proof. intros Hx. rewrite py_int_floor by done. apply Qfloor_le. Qed.

Lemma py_int_gt (x : Q) : 0 <= x → x - 1 < inject_Z (py_int x).
Proof.
  intros Hx. rewrite py_int_floor by done.
  pose proof (Qlt_floor x) as H. rewrite inject_Z_plus in H.
  change (inject_Z 1) with 1 in H. lra.
Qed.

(** The claim C6 fails on the pyannote path by less than one sample period:
    the samples analysed start at [int(start * sr)], the times are counted
    from [start].  A 9 s run found in a span that starts half a sample late
    is chopped into 2 x 4.5 s, more than the span's duration. *)
Lemma subdivision_exceeds_span_pyannote :
  let orig := {| seg_start_ms := 0; seg_end_ms := 20000 |} in
  let vs := {| start := 1 # 32768; end_ := 9 |} in
  let effects_split := λ lo hi : Z, [(0, hi - lo)]%Z in
  let lo := py_int (sec_to_frame (start vs) 16000) in
  let hi := py_int (sec_to_frame (end_ vs) 16000) in
  ∃ d : dict,
    get_split_audio 0 [vs] orig 16000 effects_split "a" 2 8 = Ok d ∧
    8 < end_ vs - start vs ∧
    runs_within 0 (hi - lo) (effects_split lo hi) = true ∧
    ¬ total_duration (emitted d) <= end_ vs - start vs.
Proof.
  intros orig vs effects_split lo hi. eexists.
  split; [vm_compute; reflexivity|]. split; [reflexivity|].
  split; [reflexivity|]. intros H. vm_compute in H. by apply H.
Qed.

(** C6 (amended). On the Silero path, in exact arithmetic and measuring a
    segment by the bounds of the slice requested for it: for a span longer
    than [upper_limit] whose non-mute runs are ordered, disjoint and inside
    the span's samples, the durations of the segments written for it sum to
    at most the span's duration.  On either path, as the program computes in
    binary64: when a span is handed to the subdivider and the energy analysis
    finds no run, nothing is written and the counter is unchanged. *)
Theorem subdivision_durations_bounded (fuel : nat) (orig : AudioSegment)
    (effects_split : Z → Z → list (Z * Z)) (id : string) (c : Z) (d : dict) :
  (∀ (lower upper : Q) (start_frame end_frame c' : Z) (d' : dict),
     upper < inject_Z (end_frame - start_frame) / 16000 →
     runs_within 0 (end_frame - start_frame)
       (effects_split start_frame end_frame) = true →
     classify_timestamp fuel orig effects_split id lower upper
       (start_frame, end_frame) (c, d) = Ok (c', d') →
     ∃ news, d' = apply_writes news d ∧
       total_duration news <= inject_Z (end_frame - start_frame) / 16000) ∧
  (∀ (lower upper : float) (ts : Z * Z),
     let len := (binary64.of_int (ts.2 - ts.1) / 16000)%float in
     sample_span ts = true →
     (lower <=? len)%float && (len <=? upper)%float = false →
     (upper <? len)%float = true →
     effects_split ts.1 ts.2 = [] →
     binary64.classify_timestamp fuel orig effects_split id lower upper ts
       (c, d) = binary64.Returns (c, d)) ∧
  (∀ (lower upper : float) (sr : Z) (vs : binary64.Timeline) (lo hi : Z),
     let len := (binary64.end_ vs - binary64.start vs)%float in
     (lower <=? len)%float && (len <=? upper)%float = false →
     (upper <? len)%float = true →
     binary64.to_int
       (binary64.sec_to_frame (binary64.start vs) (binary64.of_int sr))
       = binary64.Returns lo →
     binary64.to_int
       (binary64.sec_to_frame (binary64.end_ vs) (binary64.of_int sr))
       = binary64.Returns hi →
     effects_split lo hi = [] →
     binary64.classify_vad_span fuel orig sr effects_split id lower upper vs
       (c, d) = binary64.Returns (c, d)).
Proof.
  split; [|split].
  - intros lower upper s e c' d' Hlong Hruns Hcall.
    destruct (span_sound fuel orig id lower upper (silero_span (s, e)) _ 16000
                (effects_split s e) c c' d d' Hcall) as (news & Hsp & _ & ->).
    exists news. split; [done|].
    inversion Hsp as [c0 Hlo Hup|c0 news0 _ Hit|c0 Hlo Hup]; subst.
    + exfalso. lra.
    + replace (e - s)%Z with (e - s - 0)%Z by lia.
      eapply iterations_total; [reflexivity|exact Hruns|exact Hit].
    + exfalso. lra.
  - intros lower upper ts len _ Hband Hlong Hnil.
    unfold binary64.classify_timestamp. fold len.
    by rewrite Hband, Hlong, Hnil.
  - intros lower upper sr vs lo hi len Hband Hlong Hlo Hhi Hnil.
    unfold binary64.classify_vad_span. fold len.
    rewrite Hband, Hlong, Hlo. cbn [mbind binary64.outcome_bind].
    rewrite Hhi. cbn [mbind binary64.outcome_bind].
    by rewrite Hnil.
Qed.

Lemma subdivision_durations_bounded_witness :
  let orig := {| seg_start_ms := 0; seg_end_ms := 20000 |} in
  let effects_split := λ lo hi : Z, [(0, hi - lo)]%Z in
  ∃ (c' : Z) (d' : dict) (news : list emission),
    classify_timestamp 1 orig effects_split "a" 2 8 (32000, 176000)%Z
      (1%Z, empty_dict) = Ok (c', d') ∧
    d' = apply_writes news empty_dict ∧
    total_duration news <= inject_Z (176000 - 32000) / 16000.
Proof.
  intros orig effects_split.
  assert (Hrun : ∃ c' d', classify_timestamp 1 orig effects_split "a" 2 8
                            (32000, 176000)%Z (1%Z, empty_dict) = Ok (c', d'))
    by (eexists _, _; vm_compute; reflexivity).
  destruct Hrun as (c' & d' & Hrun).
  destruct (proj1 (subdivision_durations_bounded 1 orig effects_split "a"
                     1 empty_dict) 2 8 32000%Z 176000%Z c' d')
    as (news & Hd & Htot).
  - reflexivity.
  - reflexivity.
  - exact Hrun.
  - exists c', d', news. split; [exact Hrun|]. split; [exact Hd|exact Htot].
Defined.

(** * Further properties of the code *)

(** ** The chopper on its own *)

Lemma Qpos_neq0 (x : Q) : 0 < x → ¬ x == 0.
Proof. intros Hx E. rewrite E in Hx. by apply Qlt_irrefl in Hx. Qed.

(** X1. In exact arithmetic (no underflow of the half, chops measured by the
    bounds of the slices requested): [chop_long_segment_duration] halves
    before it compares: called with a nonzero duration whose half already
    fits under [upper_limit] (so also with a duration that fits itself), it
    skips the loop and writes exactly two chops of half the duration; called
    with duration 0 and a non-negative [upper_limit], it raises at the
    division [duration / chop_length]. *)
Theorem chopper_two_halves (fuel : nat) (D upper_limit : Q)
    (orig : AudioSegment) (vs : Timeline) (split_start : Z) (sr : Q)
    (id : string) (d : dict) (counter : Z) :
  D / 2 <= upper_limit →
  (¬ D == 0 → ¬ sr == 0 →
   chop_long_segment_duration fuel D upper_limit orig vs split_start sr id d
     counter
   = Ok ((counter + 2)%Z,
         apply_writes
           (chop_emissions (D / 2) 2 orig vs (inject_Z split_start / sr) id
              counter) d)) ∧
  (D == 0 →
   chop_long_segment_duration fuel D upper_limit orig vs split_start sr id d
     counter = ZeroDivisionError).
Proof.
  intros Hfit. pose proof (while_halve_exit fuel (D / 2) upper_limit Hfit) as Hw.
  split.
  - intros HD Hsr.
    assert (Hcl : ¬ D / 2 == 0) by (intros E; apply HD; qlra).
    pose proof (chop_exact fuel D upper_limit orig vs split_start sr id d counter
                  (D / 2) Hsr Hcl Hw) as Hex.
    cbv zeta in Hex.
    assert (Hint : py_int (D / (D / 2)) = 2%Z).
    { apply py_int_integer; [lia|]. change (inject_Z 2) with 2. by field. }
    rewrite Hint in Hex. rewrite Hex, length_chop_emissions. reflexivity.
  - intros HD. unfold chop_long_segment_duration. rewrite Hw.
    cbn [mbind result_bind]. unfold truediv.
    assert (Hz : Qeq_bool (D / 2) 0 = true) by (apply Qeq_bool_iff; qlra).
    by rewrite Hz.
Qed.

Lemma chopper_two_halves_witness :
  let orig := {| seg_start_ms := 0; seg_end_ms := 20000 |} in
  let vs := {| start := 2; end_ := 11 |} in
  chop_long_segment_duration 0 6 8 orig vs 0 16000 "a" empty_dict 1
  = Ok (3%Z, apply_writes (chop_emissions (6 / 2) 2 orig vs (inject_Z 0 / 16000)
                             "a" 1) empty_dict).
Proof.
  intros orig vs.
  refine (proj1 (chopper_two_halves 0 6 8 orig vs 0 16000 "a" empty_dict 1 _) _ _);
    vm_compute; discriminate.
Defined.

Lemma while_halve_negative_upper (fuel : nat) (c u : Q) :
  0 <= c → u < 0 → while_halve fuel c u = OutOfFuel.
Proof.
  intros Hc Hu. revert c Hc. induction fuel as [|fuel IH]; intros c Hc; simpl.
  - assert (H : Qltb u c = true) by (apply Qltb_lt; lra). by rewrite H.
  - assert (H : Qltb u c = true) by (apply Qltb_lt; lra). rewrite H.
    apply IH. qlra.
Qed.

(** X2. With a negative [upper_limit] the halving loop of the chopper never
    ends on a non-negative duration (halves of a non-negative number stay
    above the limit): the chopper has no normal return whatever the bound on
    its iterations, and neither has the processing of a non-mute run of
    non-negative length. *)
Theorem chopper_diverges_on_negative_upper (fuel : nat) (D upper_limit : Q)
    (orig : AudioSegment) (vs : Timeline) (sr lower : Q) (id : string)
    (d : dict) (counter : Z) :
  upper_limit < 0 →
  (∀ split_start : Z, 0 <= D →
     chop_long_segment_duration fuel D upper_limit orig vs split_start sr id d
       counter = OutOfFuel) ∧
  (∀ split_start split_end : Z, 0 < sr → (split_start <= split_end)%Z →
     process_non_mute_segment fuel orig vs sr lower upper_limit id
       (split_start, split_end) (counter, d) = OutOfFuel).
Proof.
  intros HU. split.
  - intros split_start HD. unfold chop_long_segment_duration.
    rewrite while_halve_negative_upper by qlra. done.
  - intros s e Hsr Hse. pose proof (Qpos_neq0 _ Hsr) as Hsr'.
    assert (HD : 0 <= sub_duration vs sr (s, e)).
    { rewrite sub_duration_frames by done. apply Qdiv_nonneg; [|done].
      change 0 with (inject_Z 0). rewrite <- Zle_Qle. lia. }
    unfold process_non_mute_segment.
    rewrite !(frame_to_sec_ok _ _ Hsr'). cbn [mbind result_bind].
    change (start vs + inject_Z e / sr - (start vs + inject_Z s / sr))
      with (sub_duration vs sr (s, e)).
    rewrite (Qle_bool_false (sub_duration vs sr (s, e)) upper_limit) by lra.
    rewrite andb_false_r.
    assert (H : Qltb upper_limit (sub_duration vs sr (s, e)) = true)
      by (apply Qltb_lt; lra).
    rewrite H. unfold chop_long_segment_duration.
    rewrite while_halve_negative_upper by qlra. done.
Qed.

Lemma chopper_diverges_on_negative_upper_witness :
  let orig := {| seg_start_ms := 0; seg_end_ms := 20000 |} in
  let vs := {| start := 2; end_ := 11 |} in
  chop_long_segment_duration 50 9 (-1) orig vs 0 16000 "a" empty_dict 1
    = OutOfFuel ∧
  process_non_mute_segment 50 orig vs 16000 2 (-1) "a" (0, 16000)%Z
    (1%Z, empty_dict) = OutOfFuel.
Proof.
  intros orig vs.
  destruct (chopper_diverges_on_negative_upper 50 9 (-1) orig vs 16000 2 "a"
              empty_dict 1) as [H1 H2].
  - reflexivity.
  - split.
    + apply (H1 0%Z). vm_compute. discriminate.
    + apply (H2 0%Z 16000%Z); [reflexivity|lia].
Defined.

(** X3. For [D > upper_limit > 0] the number of chops is the least power of
    two [n] with [D / n <= upper_limit]: the chopper returns after
    [ceil(log2(D / upper_limit)) - 1] executions of its loop body with chop
    length [D / 2^ceil(log2(D / upper_limit))], and writes
    [2^ceil(log2(D / upper_limit))] chops of that length. *)
Theorem chopper_count_least_power_of_two (D upper_limit : Q)
    (orig : AudioSegment) (vs : Timeline) (split_start : Z) (sr : Q)
    (id : string) (d : dict) (counter : Z) :
  ¬ sr == 0 → 0 < upper_limit → upper_limit < D →
  let n := ceil_log2 (D / upper_limit) in
  halved n D <= upper_limit ∧
  (∀ m : nat, D / pow2 m <= upper_limit → (n <= m)%nat) ∧
  ∀ fuel, (n - 1 <= fuel)%nat →
    while_halve fuel (D / 2) upper_limit = Ok (halved n D) ∧
    chop_long_segment_duration fuel D upper_limit orig vs split_start sr id d
      counter
    = Ok ((counter + 2 ^ Z.of_nat n)%Z,
          apply_writes
            (chop_emissions (halved n D) (2 ^ Z.of_nat n) orig vs
               (inject_Z split_start / sr) id counter) d).
Proof.
  intros Hsr HU HD n.
  assert (HD0 : 0 < D) by lra.
  assert (Hleast : ∀ m : nat, D / pow2 m <= upper_limit → (n <= m)%nat).
  { intros m Hm. apply ceil_log2_least. pose proof (pow2_pos m) as Hp.
    apply Qle_shift_div_r; [done|].
    apply Qle_trans with (D / pow2 m * pow2 m).
    - apply Qle_lteq. right. field. by apply Qpos_neq0.
    - rewrite (Qmult_comm (pow2 m)).
      apply Qmult_le_compat_r; [done|by apply Qlt_le_weak]. }
  destruct (ceil_log2_ratio D upper_limit HU HD) as (n' & Hn & Hspec).
  destruct (halving_from_bound n' D upper_limit Hspec) as (k & [Hk1 Hk2] & Hle & Hf).
  assert (Hkn : k = n).
  { assert (n <= k)%nat; [|unfold n in *; lia].
    apply Hleast. by rewrite <- halved_pow2. }
  subst k. split; [done|]. split; [done|].
  intros fuel Hfuel. pose proof (Hf fuel Hfuel) as Hw. split; [done|].
  assert (Hcl : ¬ halved n D == 0) by by apply Qpos_neq0, halved_pos.
  pose proof (chop_exact fuel D upper_limit orig vs split_start sr id d counter
                (halved n D) Hsr Hcl Hw) as Hex.
  cbv zeta in Hex.
  assert (Hp : (0 <= 2 ^ Z.of_nat n)%Z) by (apply Z.pow_nonneg; lia).
  assert (Hint : py_int (D / halved n D) = (2 ^ Z.of_nat n)%Z).
  { apply py_int_integer; [done|]. by apply halved_div_pow2. }
  rewrite Hint in Hex. rewrite Hex, length_chop_emissions.
  do 2 f_equal. lia.
Qed.

Lemma chopper_count_least_power_of_two_witness :
  while_halve 2 (33 / 2) 8 = Ok (halved (ceil_log2 (33 / 8)) 33).
Proof.
  destruct (chopper_count_least_power_of_two 33 8
              {| seg_start_ms := 0; seg_end_ms := 40000 |}
              {| start := 2; end_ := 35 |} 0 16000 "a" empty_dict 1)
    as (_ & _ & H).
  - vm_compute. discriminate.
  - reflexivity.
  - reflexivity.
  - refine (proj1 (H 2%nat _)). vm_compute. lia.
Defined.

(** ** Segments in time order *)

Lemma segments_within_le (l : list emission) :
  ∀ lo hi, segments_within lo hi l → lo <= hi.
Proof.
  induction l as [|e l IH]; intros lo hi H; simpl in H; [done|].
  destruct H as (H1 & H2 & H3). pose proof (IH _ _ H3). lra.
Qed.

Lemma segments_within_weaken (l : list emission) :
  ∀ lo hi lo' hi', lo' <= lo → hi <= hi' →
    segments_within lo hi l → segments_within lo' hi' l.
Proof.
  induction l as [|e l IH]; intros lo hi lo' hi' Hlo Hhi H; simpl in *.
  - lra.
  - destruct H as (H1 & H2 & H3). split; [lra|]. split; [done|].
    eapply IH; [apply Qle_refl|exact Hhi|exact H3].
Qed.

Lemma segments_within_app (l1 l2 : list emission) :
  ∀ lo mid hi, segments_within lo mid l1 → segments_within mid hi l2 →
    segments_within lo hi (l1 ++ l2).
Proof.
  induction l1 as [|e l1 IH]; intros lo mid hi H1 H2; simpl in *.
  - eapply segments_within_weaken; [exact H1|apply Qle_refl|exact H2].
  - destruct H1 as (Ha & Hb & Hc). split; [done|]. split; [done|].
    by eapply IH.
Qed.

Lemma segments_within_head (l : list emission) (lo hi : Q) (e : emission) :
  segments_within lo hi l → e ∈ l →
  lo <= seg_start_ms (em_segment e) ∧ seg_end_ms (em_segment e) <= hi.
Proof.
  revert lo. induction l as [|x l IH]; intros lo H He; [by apply elem_of_nil in He|].
  simpl in H. destruct H as (H1 & H2 & H3).
  apply elem_of_cons in He as [->|He].
  - split; [done|]. by eapply segments_within_le.
  - destruct (IH _ H3 He) as [Ha Hb]. split; [lra|done].
Qed.

Lemma segments_within_slice (l : list emission) (lo hi : Q) (e : emission) :
  segments_within lo hi l → e ∈ l →
  seg_start_ms (em_segment e) <= seg_end_ms (em_segment e).
Proof.
  revert lo. induction l as [|x l IH]; intros lo H He; [by apply elem_of_nil in He|].
  simpl in H. destruct H as (_ & H2 & H3).
  apply elem_of_cons in He as [->|He]; [done|]. by eapply IH.
Qed.

Lemma segments_within_non_overlapping (l : list emission) (lo hi : Q) :
  segments_within lo hi l → non_overlapping l.
Proof.
  revert lo. induction l as [|x l IH]; intros lo H i j e e' Hij Hi Hj.
  - by rewrite lookup_nil in Hi.
  - simpl in H. destruct H as (H1 & H2 & H3).
    destruct j as [|j]; [lia|]. simpl in Hj. destruct i as [|i]; simpl in Hi.
    + injection Hi as ->.
      destruct (segments_within_head l _ hi e' H3) as [Ha _]; [|done].
      by eapply list_elem_of_lookup_2.
    + eapply (IH _ H3 i j); [lia|done|done].
Qed.

Lemma chop_chain cl n orig vs off id c (k : nat) :
  0 <= cl →
  ∀ a : Z,
    segments_within
      (sec_to_millis (start vs + off + cl * inject_Z a))
      (sec_to_millis (start vs + off + cl * inject_Z (a + Z.of_nat k)))
      (map (chop_emission cl n orig vs off id c) (seqZ a (Z.of_nat k))).
Proof.
  intros Hcl. induction k as [|k IH]; intros a.
  - simpl. rewrite Z.add_0_r. apply Qle_refl.
  - rewrite seqZ_cons by lia.
    replace (Z.pred (Z.of_nat (S k))) with (Z.of_nat k) by lia.
    cbn [map segments_within chop_emission em_segment getitem seg_start_ms seg_end_ms].
    split; [apply Qle_refl|]. split.
    + unfold sec_to_millis. rewrite inject_Z_plus. change (inject_Z 1) with 1.
      nra.
    + replace (a + Z.of_nat (S k))%Z with (Z.succ a + Z.of_nat k)%Z by lia.
      apply IH.
Qed.

Lemma sub_span_chain orig id lower upper vs sr (s e : Z) c l :
  0 < sr → (s <= e)%Z →
  sub_span_emits orig id lower upper vs sr (s, e) c l →
  segments_within (sec_to_millis (start vs + inject_Z s / sr))
                  (sec_to_millis (start vs + inject_Z e / sr)) l.
Proof.
  intros Hsr Hse H. pose proof (Qpos_neq0 _ Hsr) as Hsr'.
  assert (Hfr : inject_Z s / sr <= inject_Z e / sr).
  { apply Qmult_le_compat_r; [by rewrite <- Zle_Qle|].
    by apply Qlt_le_weak, Qinv_lt_0_compat. }
  assert (HD : 0 <= sub_duration vs sr (s, e)).
  { unfold sub_duration. cbn [fst snd]. lra. }
  remember (s, e) as split eqn:Hsplit.
  destruct H as [split c Hlo Hup|split c k cl Hlong -> Hlow Hle|split c Hlo Hup];
    subst split; cbn [fst snd] in *.
  - simpl. unfold sec_to_millis. split; [apply Qle_refl|]. split; [lra|apply Qle_refl].
  - set (D := sub_duration vs sr (s, e)) in *.
    assert (Hcl : 0 < halved (S k) D).
    { pose proof (halved_nonneg (S k) D HD). qlra. }
    unfold chop_emissions. rewrite range_to_nat.
    rewrite py_int_floor by (apply Qdiv_nonneg; done).
    destruct (floor_chops_fit D _ Hcl HD) as (Hn & Hfit & _).
    eapply segments_within_weaken;
      [| |apply (chop_chain _ _ _ _ _ _ _ (Z.to_nat (Qfloor (D / halved (S k) D)))
                   (Qlt_le_weak _ _ Hcl) 0%Z)].
    + unfold sec_to_millis. change (inject_Z 0) with 0. lra.
    + rewrite Z.add_0_l, Z2Nat.id by done. unfold sec_to_millis.
      assert (HDe : D == inject_Z e / sr - inject_Z s / sr).
      { unfold D, sub_duration. cbn [fst snd]. ring. }
      rewrite (Qmult_comm (halved (S k) D)). lra.
  - simpl. unfold sec_to_millis. lra.
Qed.

Lemma iterations_chain orig id lower upper vs sr :
  0 < sr →
  ∀ runs lo hi c news,
    runs_within lo hi runs = true →
    iterations (sub_span_emits orig id lower upper vs sr) runs c news →
    segments_within (sec_to_millis (start vs + inject_Z lo / sr))
                    (sec_to_millis (start vs + inject_Z hi / sr)) news.
Proof.
  intros Hsr runs.
  assert (Hmono : ∀ a b : Z, (a <= b)%Z →
            sec_to_millis (start vs + inject_Z a / sr)
            <= sec_to_millis (start vs + inject_Z b / sr)).
  { intros a b Hab. unfold sec_to_millis.
    assert (inject_Z a / sr <= inject_Z b / sr); [|lra].
    apply Qmult_le_compat_r; [by rewrite <- Zle_Qle|].
    by apply Qlt_le_weak, Qinv_lt_0_compat. }
  induction runs as [|[s e] runs IH]; intros lo hi c news Hw Hit.
  - inversion Hit; subst. simpl in *. apply Z.leb_le in Hw. by apply Hmono.
  - inversion Hit as [|x xs c0 l rest Hl Hrest]; subst.
    simpl in Hw. apply andb_true_iff in Hw as [Hw Hw3].
    apply andb_true_iff in Hw as [Hw1 Hw2].
    apply Z.leb_le in Hw1, Hw2.
    eapply segments_within_app.
    + eapply segments_within_weaken;
        [apply (Hmono lo s Hw1)|apply Qle_refl|].
      by eapply sub_span_chain.
    + by eapply IH.
Qed.

(** X4. In exact arithmetic, taking a segment as the slice requested for
    it: when the non-mute runs handed to [process_non_mute_segments] are
    ordered and disjoint between the frames [lo] and [hi], and the sampling
    rate is positive, the segments it writes are in time order, never
    overlap, and all lie between [vad_span.start + lo / rate] and
    [vad_span.start + hi / rate] (in milliseconds): chops stay inside their
    run and runs are never merged. *)
Theorem processed_segments_ordered_disjoint (fuel : nat) (runs : list (Z * Z))
    (orig : AudioSegment) (vs : Timeline) (sr lower upper : Q) (id : string)
    (lo hi c c' : Z) (d d' : dict) :
  0 < sr → runs_within lo hi runs = true →
  process_non_mute_segments fuel runs orig vs sr lower upper id c d
    = Ok (c', d') →
  ∃ news : list emission,
    d' = apply_writes news d ∧
    segments_within (sec_to_millis (start vs + inject_Z lo / sr))
                    (sec_to_millis (start vs + inject_Z hi / sr)) news ∧
    non_overlapping news ∧
    (∀ e, e ∈ news →
       sec_to_millis (start vs + inject_Z lo / sr) <= seg_start_ms (em_segment e) ∧
       seg_start_ms (em_segment e) <= seg_end_ms (em_segment e) ∧
       seg_end_ms (em_segment e) <= sec_to_millis (start vs + inject_Z hi / sr)).
Proof.
  intros Hsr Hruns Hcall.
  destruct (process_non_mute_segments_sound _ _ _ _ _ _ _ _ _ _ _ _ Hcall)
    as (news & Hit & _ & ->).
  pose proof (iterations_chain orig id lower upper vs sr Hsr _ _ _ _ _ Hruns Hit)
    as Hchain.
  exists news. split; [done|]. split; [done|].
  split; [by eapply segments_within_non_overlapping|].
  intros e He. destruct (segments_within_head _ _ _ e Hchain He) as [Ha Hb].
  split; [done|]. split; [|done]. by eapply segments_within_slice.
Qed.

Lemma processed_segments_ordered_disjoint_witness :
  let orig := {| seg_start_ms := 0; seg_end_ms := 40000 |} in
  let vs := {| start := 2; end_ := 30 |} in
  ∃ (c' : Z) (d' : dict) (news : list emission),
    process_non_mute_segments 2 [(0, 48000); (64000, 400000)]%Z orig vs 16000
      2 8 "a" 1 empty_dict = Ok (c', d') ∧
    d' = apply_writes news empty_dict ∧ non_overlapping news.
Proof.
  intros orig vs.
  assert (Hrun : ∃ c' d', process_non_mute_segments 2
                   [(0, 48000); (64000, 400000)]%Z orig vs 16000 2 8 "a" 1
                   empty_dict = Ok (c', d'))
    by (eexists _, _; vm_compute; reflexivity).
  destruct Hrun as (c' & d' & Hrun).
  destruct (processed_segments_ordered_disjoint 2 [(0, 48000); (64000, 400000)]%Z
              orig vs 16000 2 8 "a" 0 400000 1 c' empty_dict d')
    as (news & Hd & _ & Hno & _).
  - reflexivity.
  - reflexivity.
  - exact Hrun.
  - exists c', d', news. split; [exact Hrun|]. split; [exact Hd|exact Hno].
Defined.

(** ** Whole runs *)

(** A run that returns has written, from the empty dict and counter 1, what
    the iterations over its spans write. *)
Lemma pyannote_run_news fuel timeline orig sr effects_split id lower upper d :
  get_split_audio fuel timeline orig sr effects_split id lower upper = Ok d →
  ∃ news, d = apply_writes news empty_dict ∧
    iterations (pyannote_emits orig id lower upper sr effects_split) timeline 1 news.
Proof.
  unfold get_split_audio.
  destruct (get_split_audio_loop _ _ _ _ _ _ _ _ _ _) as [[c d0]| |] eqn:E;
    cbn [mbind result_bind]; [|done..].
  intros [= ->].
  destruct (get_split_audio_loop_sound _ _ _ _ _ _ _ _ _ _ _ _ E)
    as (news & Hit & _ & ->).
  by exists news.
Qed.

Lemma silero_run_news fuel speech_timestamps orig effects_split id lower upper d :
  get_split_audio_using_silero fuel speech_timestamps orig effects_split id
    lower upper = Ok d →
  ∃ news, d = apply_writes news empty_dict ∧
    iterations (silero_emits orig id lower upper effects_split)
      speech_timestamps 1 news.
Proof.
  unfold get_split_audio_using_silero.
  destruct (get_split_audio_using_silero_loop _ _ _ _ _ _ _ _ _)
    as [[c d0]| |] eqn:E; cbn [mbind result_bind]; [|done..].
  intros [= ->].
  destruct (get_split_audio_using_silero_loop_sound _ _ _ _ _ _ _ _ _ _ _ E)
    as (news & Hit & _ & ->).
  by exists news.
Qed.

Lemma silero_span_chain orig id lower upper effects_split (s e : Z) c l :
  (s <= e)%Z →
  runs_within 0 (e - s) (effects_split s e) = true →
  silero_emits orig id lower upper effects_split (s, e) c l →
  segments_within (sec_to_millis (inject_Z s / 16000))
                  (sec_to_millis (inject_Z e / 16000)) l.
Proof.
  intros Hse Hruns H. rewrite Zle_Qle in Hse.
  unfold silero_emits in H. cbn [fst snd] in H.
  inversion H as [c0 Hlo Hup|c0 news _ Hit|c0 Hlo Hup]; subst.
  - simpl. unfold sec_to_millis. split; [apply Qle_refl|].
    split; [qlra|apply Qle_refl].
  - pose proof (iterations_chain orig id lower upper (silero_span (s, e)) 16000
                  eq_refl _ _ _ _ _ Hruns Hit) as Hchain.
    eapply segments_within_weaken; [| |exact Hchain];
      unfold sec_to_millis, silero_span, Z.sub; cbn [start fst snd].
    + change (inject_Z 0) with 0. qlra.
    + rewrite inject_Z_plus, inject_Z_opp. qlra.
  - simpl. unfold sec_to_millis. qlra.
Qed.

Lemma silero_run_chain orig id lower upper effects_split :
  ∀ (ts : list (Z * Z)) (lo hi c : Z) (news : list emission),
    runs_within lo hi ts = true →
    forallb (λ t, runs_within 0 (t.2 - t.1) (effects_split t.1 t.2)) ts = true →
    iterations (silero_emits orig id lower upper effects_split) ts c news →
    segments_within (sec_to_millis (inject_Z lo / 16000))
                    (sec_to_millis (inject_Z hi / 16000)) news.
Proof.
  assert (Hmono : ∀ a b : Z, (a <= b)%Z →
            sec_to_millis (inject_Z a / 16000) <= sec_to_millis (inject_Z b / 16000)).
  { intros a b Hab. rewrite Zle_Qle in Hab. unfold sec_to_millis. qlra. }
  induction ts as [|[s e] ts IH]; intros lo hi c news Hw Hall Hit.
  - inversion Hit; subst. simpl in *. apply Z.leb_le in Hw. by apply Hmono.
  - inversion Hit as [|x xs c0 l rest Hl Hrest]; subst.
    simpl in Hw. apply andb_true_iff in Hw as [Hw Hw3].
    apply andb_true_iff in Hw as [Hw1 Hw2].
    apply Z.leb_le in Hw1, Hw2.
    simpl in Hall. apply andb_true_iff in Hall as [Hes Hall].
    eapply segments_within_app.
    + eapply segments_within_weaken;
        [apply (Hmono lo s Hw1)|apply Qle_refl|].
      by eapply silero_span_chain.
    + by eapply IH.
Qed.

(** X5. In exact arithmetic, taking a segment as the slice requested for
    it: in a run of the Silero backend whose speech timestamps are ordered
    and disjoint between the samples [lo] and [hi], and whose non-mute runs
    are ordered, disjoint and inside the slice of their span, the segments of
    the output, in the order of their sequence numbers, are in time order and
    never overlap, and all lie between [lo / 16] and [hi / 16] milliseconds. *)
Theorem silero_segments_ordered_disjoint (fuel : nat)
    (speech_timestamps : list (Z * Z)) (orig : AudioSegment)
    (effects_split : Z → Z → list (Z * Z)) (id : string) (lower upper : Q)
    (lo hi : Z) (d : dict) :
  runs_within lo hi speech_timestamps = true →
  forallb (λ t, runs_within 0 (t.2 - t.1) (effects_split t.1 t.2))
    speech_timestamps = true →
  get_split_audio_using_silero fuel speech_timestamps orig effects_split id
    lower upper = Ok d →
  segments_within (sec_to_millis (inject_Z lo / 16000))
                  (sec_to_millis (inject_Z hi / 16000)) (emitted d) ∧
  non_overlapping (emitted d) ∧
  (∀ e, e ∈ emitted d →
     inject_Z lo / 16 <= seg_start_ms (em_segment e) ∧
     seg_start_ms (em_segment e) <= seg_end_ms (em_segment e) ∧
     seg_end_ms (em_segment e) <= inject_Z hi / 16).
Proof.
  intros Hts Hruns Hrun.
  destruct (silero_run_news _ _ _ _ _ _ _ _ Hrun) as (news & -> & Hit).
  unfold empty_dict. cbn [apply_writes emitted app].
  pose proof (silero_run_chain _ _ _ _ _ _ _ _ _ _ Hts Hruns Hit) as Hchain.
  split; [done|]. split; [by eapply segments_within_non_overlapping|].
  intros e He. destruct (segments_within_head _ _ _ e Hchain He) as [Ha Hb].
  pose proof (segments_within_slice _ _ _ e Hchain He) as Hc.
  unfold sec_to_millis in Ha, Hb.
  split; [|split; [done|]].
  - eapply Qle_trans; [|exact Ha]. apply Qle_lteq. right. field.
  - eapply Qle_trans; [exact Hb|]. apply Qle_lteq. right. field.
Qed.

Lemma silero_segments_ordered_disjoint_witness :
  let orig := {| seg_start_ms := 0; seg_end_ms := 40000 |} in
  let effects_split := λ lo hi : Z, [(0, 1000); (2000, hi - lo)]%Z in
  ∃ d : dict,
    get_split_audio_using_silero 3 [(0, 80000); (100000, 110000); (200000, 600000)]%Z
      orig effects_split "rec" 2 8 = Ok d ∧
    non_overlapping (emitted d).
Proof.
  intros orig effects_split.
  assert (Hrun : ∃ d, get_split_audio_using_silero 3
                   [(0, 80000); (100000, 110000); (200000, 600000)]%Z
                   orig effects_split "rec" 2 8 = Ok d)
    by (eexists; vm_compute; reflexivity).
  destruct Hrun as (d & Hrun). exists d. split; [exact Hrun|].
  refine (proj1 (proj2 (silero_segments_ordered_disjoint 3
            [(0, 80000); (100000, 110000); (200000, 600000)]%Z orig effects_split
            "rec" 2 8 0 600000 d _ _ Hrun))); reflexivity.
Defined.

(** ** Termination of a run *)

(** A loop returns, with a result that does not depend on the bound, as soon
    as the bound is large enough for each of its iterations. *)
Lemma for_each_returns {A S : Type} (body : nat → A → S → result S) (xs : list A) :
  (∀ x, x ∈ xs → ∃ f0 : nat, ∀ s, ∃ s', ∀ fuel, (f0 <= fuel)%nat →
                   body fuel x s = Ok s') →
  ∃ f0 : nat, ∀ s, ∃ s', ∀ fuel, (f0 <= fuel)%nat →
    for_each xs (body fuel) s = Ok s'.
Proof.
  induction xs as [|x xs IH]; intros Hbody.
  - exists 0%nat. intros s. exists s. done.
  - destruct (Hbody x) as (f1 & H1); [apply list_elem_of_here|].
    destruct IH as (f2 & H2).
    { intros y Hy. apply Hbody. by apply list_elem_of_further. }
    exists (Nat.max f1 f2). intros s.
    destruct (H1 s) as (s1 & Hs1). destruct (H2 s1) as (s2 & Hs2).
    exists s2. intros fuel Hfuel. cbn [for_each].
    rewrite Hs1 by lia. cbn [mbind result_bind]. apply Hs2. lia.
Qed.

Lemma chop_returns (D upper : Q) (orig : AudioSegment) (vs : Timeline)
    (split_start : Z) (sr : Q) (id : string) :
  ¬ sr == 0 → 0 < upper → upper < D →
  ∃ f0 : nat, ∀ (c : Z) (d : dict), ∃ r, ∀ fuel, (f0 <= fuel)%nat →
    chop_long_segment_duration fuel D upper orig vs split_start sr id d c = Ok r.
Proof.
  intros Hsr HU HD.
  destruct (ceil_log2_ratio D upper HU HD) as (n & _ & Hspec).
  destruct (halving_from_bound n D upper Hspec) as (k & _ & _ & Hf).
  assert (Hcl : ¬ halved k D == 0) by (apply Qpos_neq0, halved_pos; lra).
  exists (k - 1)%nat. intros c d. eexists. intros fuel Hfuel.
  exact (chop_exact fuel D upper orig vs split_start sr id d c (halved k D)
           Hsr Hcl (Hf fuel Hfuel)).
Qed.

Lemma process_non_mute_segment_returns (orig : AudioSegment) (vs : Timeline)
    (sr lower upper : Q) (id : string) (split : Z * Z) :
  ¬ sr == 0 → 0 < upper →
  ∃ f0 : nat, ∀ s, ∃ s', ∀ fuel, (f0 <= fuel)%nat →
    process_non_mute_segment fuel orig vs sr lower upper id split s = Ok s'.
Proof.
  intros Hsr HU. destruct split as [a b].
  destruct (Qlt_le_dec upper (sub_duration vs sr (a, b))) as [Hlong|Hfit].
  - destruct (chop_returns _ upper orig vs a sr id Hsr HU Hlong) as (f0 & Hf0).
    exists f0. intros [c d]. destruct (Hf0 c d) as (r & Hr).
    destruct (Qle_bool lower (sub_duration vs sr (a, b))
              && Qle_bool (sub_duration vs sr (a, b)) upper) eqn:Hb.
    + eexists. intros fuel _. unfold process_non_mute_segment.
      rewrite !(frame_to_sec_ok _ _ Hsr). cbn [mbind result_bind].
      change (start vs + inject_Z b / sr - (start vs + inject_Z a / sr))
        with (sub_duration vs sr (a, b)). rewrite Hb. reflexivity.
    + exists r. intros fuel Hfuel. unfold process_non_mute_segment.
      rewrite !(frame_to_sec_ok _ _ Hsr). cbn [mbind result_bind].
      change (start vs + inject_Z b / sr - (start vs + inject_Z a / sr))
        with (sub_duration vs sr (a, b)). rewrite Hb.
      apply Qltb_lt in Hlong. rewrite Hlong. by apply Hr.
  - exists 0%nat. intros [c d].
    destruct (Qle_bool lower (sub_duration vs sr (a, b))
              && Qle_bool (sub_duration vs sr (a, b)) upper) eqn:Hb;
      eexists; intros fuel _; unfold process_non_mute_segment;
      rewrite !(frame_to_sec_ok _ _ Hsr); cbn [mbind result_bind];
      change (start vs + inject_Z b / sr - (start vs + inject_Z a / sr))
        with (sub_duration vs sr (a, b));
      rewrite (Qltb_false _ _ Hfit), Hb; reflexivity.
Qed.

Lemma process_non_mute_segments_returns (runs : list (Z * Z))
    (orig : AudioSegment) (vs : Timeline) (sr lower upper : Q) (id : string) :
  ¬ sr == 0 → 0 < upper →
  ∃ f0 : nat, ∀ (c : Z) (d : dict), ∃ r, ∀ fuel, (f0 <= fuel)%nat →
    process_non_mute_segments fuel runs orig vs sr lower upper id c d = Ok r.
Proof.
  intros Hsr HU.
  destruct (for_each_returns
              (λ fuel, process_non_mute_segment fuel orig vs sr lower upper id)
              runs) as (f0 & Hf0).
  { intros x _. by apply process_non_mute_segment_returns. }
  exists f0. intros c d. destruct (Hf0 (c, d)) as (r & Hr). by exists r.
Qed.

Lemma span_returns (orig : AudioSegment) (vs : Timeline) (len sr lower upper : Q)
    (runs : list (Z * Z)) (id : string) :
  ¬ sr == 0 → 0 < upper →
  ∃ f0 : nat, ∀ (c : Z) (d : dict), ∃ r, ∀ fuel, (f0 <= fuel)%nat →
    (if Qle_bool lower len && Qle_bool len upper then
       Ok ((c + 1)%Z,
           setitem Classifier
             (segment_key id c (sec_to_millis (start vs)) (sec_to_millis (end_ vs)))
             (getitem orig (sec_to_millis (start vs)) (sec_to_millis (end_ vs))) d)
     else if Qltb upper len then
       process_non_mute_segments fuel runs orig vs sr lower upper id c d
     else Ok (c, d)) = Ok r.
Proof.
  intros Hsr HU.
  destruct (process_non_mute_segments_returns runs orig vs sr lower upper id Hsr HU)
    as (f0 & Hf0).
  exists f0. intros c d. destruct (Hf0 c d) as (r & Hr).
  destruct (Qle_bool lower len && Qle_bool len upper);
    [eexists; by intros fuel _|].
  destruct (Qltb upper len); [by exists r|eexists; by intros fuel _].
Qed.

(** X6. In exact arithmetic (no overflow, no underflow): with a positive
    [upper_limit] (and, on the pyannote path, a nonzero sampling rate) a run
    of either backend terminates normally, on every list
    of spans and every result of the energy analysis: some bound on the
    iterations of the halving loop is enough, and the dict returned is the
    same for every larger bound. *)
Theorem runs_terminate (orig : AudioSegment) (sr : Q)
    (effects_split : Z → Z → list (Z * Z)) (id : string) (lower upper : Q) :
  0 < upper →
  (∀ timeline : list Timeline, ¬ sr == 0 →
     ∃ (f0 : nat) (d : dict), ∀ fuel, (f0 <= fuel)%nat →
       get_split_audio fuel timeline orig sr effects_split id lower upper = Ok d) ∧
  (∀ speech_timestamps : list (Z * Z),
     ∃ (f0 : nat) (d : dict), ∀ fuel, (f0 <= fuel)%nat →
       get_split_audio_using_silero fuel speech_timestamps orig effects_split
         id lower upper = Ok d).
Proof.
  intros HU. split.
  - intros timeline Hsr.
    destruct (for_each_returns
                (λ fuel, classify_vad_span fuel orig sr effects_split id lower upper)
                timeline) as (f0 & Hf0).
    { intros vs _.
      destruct (span_returns orig vs (end_ vs - start vs) sr lower upper
                  (effects_split (py_int (sec_to_frame (start vs) sr))
                                 (py_int (sec_to_frame (end_ vs) sr))) id Hsr HU)
        as (f1 & Hf1).
      exists f1. intros [c d]. destruct (Hf1 c d) as (r & Hr). by exists r. }
    destruct (Hf0 (1%Z, empty_dict)) as ([c d] & Hr).
    exists f0, d. intros fuel Hfuel. unfold get_split_audio, get_split_audio_loop.
    by rewrite (Hr fuel Hfuel).
  - intros ts.
    destruct (for_each_returns
                (λ fuel, classify_timestamp fuel orig effects_split id lower upper)
                ts) as (f0 & Hf0).
    { intros [s e] _.
      destruct (span_returns orig (silero_span (s, e))
                  (inject_Z (e - s) / 16000) 16000 lower upper
                  (effects_split s e) id) as (f1 & Hf1); [done|done|].
      exists f1. intros [c d]. destruct (Hf1 c d) as (r & Hr). by exists r. }
    destruct (Hf0 (1%Z, empty_dict)) as ([c d] & Hr).
    exists f0, d. intros fuel Hfuel.
    unfold get_split_audio_using_silero, get_split_audio_using_silero_loop.
    by rewrite (Hr fuel Hfuel).
Qed.

Lemma runs_terminate_witness :
  let orig := {| seg_start_ms := 0; seg_end_ms := 40000 |} in
  let effects_split := λ lo hi : Z, [(0, hi - lo)]%Z in
  (∃ (f0 : nat) (d : dict), ∀ fuel, (f0 <= fuel)%nat →
     get_split_audio fuel [{| start := 0; end_ := 33 |}] orig 16000 effects_split
       "a" 2 8 = Ok d) ∧
  (∃ (f0 : nat) (d : dict), ∀ fuel, (f0 <= fuel)%nat →
     get_split_audio_using_silero fuel [(0, 528000)]%Z orig effects_split
       "a" 2 8 = Ok d).
Proof.
  intros orig effects_split.
  destruct (runs_terminate orig 16000 effects_split "a" 2 8) as [H1 H2].
  - reflexivity.
  - split.
    + apply H1. vm_compute. discriminate.
    + apply H2.
Defined.

(** ** The band of the output *)

(** X7. In exact arithmetic, measuring a segment by the bounds of the slice
    requested for it: when [lower_limit <= upper_limit / 2], as with the
    defaults 2 and 8 of config.py, every segment of the dict returned by a
    run of either
    backend has a duration within [[lower_limit, upper_limit]]: the chops,
    longer than half the upper limit, cannot fall below the lower one. *)
Theorem output_in_band_when_lower_at_most_half_upper (fuel : nat)
    (orig : AudioSegment) (effects_split : Z → Z → list (Z * Z)) (id : string)
    (lower upper : Q) (d : dict) :
  lower <= upper / 2 →
  ((∃ (timeline : list Timeline) (sr : Q),
      get_split_audio fuel timeline orig sr effects_split id lower upper = Ok d)
   ∨ (∃ speech_timestamps : list (Z * Z),
        get_split_audio_using_silero fuel speech_timestamps orig effects_split
          id lower upper = Ok d)) →
  (∀ e, e ∈ emitted d → in_band lower upper e) ∧
  (∀ k seg, items d !! k = Some seg →
     lower <= duration seg ∧ duration seg <= upper) ∧
  config.AUDIO_SEG_LOWER_LIMIT <= config.AUDIO_SEG_UPPER_LIMIT / 2.
Proof.
  intros Hhalf Hrun.
  assert (Hnews : ∃ news, d = apply_writes news empty_dict ∧
                    Forall (band_ok lower upper) news).
  { destruct Hrun as [(timeline & sr & H)|(ts & H)].
    - destruct (pyannote_run_news _ _ _ _ _ _ _ _ _ H) as (news & -> & Hit).
      exists news. split; [done|].
      revert Hit. apply iterations_Forall. intros x c0 l. by apply span_band.
    - destruct (silero_run_news _ _ _ _ _ _ _ _ H) as (news & -> & Hit).
      exists news. split; [done|].
      revert Hit. apply iterations_Forall. intros [s e] c0 l.
      apply span_band. unfold silero_span. cbn [start end_ fst snd].
      unfold Z.sub. rewrite inject_Z_plus, inject_Z_opp. field. }
  destruct Hnews as (news & -> & HF).
  assert (Hband : ∀ e, e ∈ news → in_band lower upper e).
  { intros e He. rewrite Forall_forall in HF. pose proof (HF e He) as Hb.
    unfold band_ok, in_band in *. destruct (em_stage e); [done|done|].
    destruct Hb as [Hb1 Hb2]. split; [lra|done]. }
  unfold empty_dict. cbn [apply_writes emitted items app].
  split; [done|]. split; [|vm_compute; discriminate].
  intros k seg Hl. destruct (replay_lookup_origin _ _ _ _ Hl) as [Hm|(e & He & _ & <-)].
  - by rewrite lookup_empty in Hm.
  - exact (Hband e He).
Qed.

Lemma output_in_band_when_lower_at_most_half_upper_witness :
  let orig := {| seg_start_ms := 0; seg_end_ms := 40000 |} in
  let effects_split := λ lo hi : Z, [(0, hi - lo)]%Z in
  ∃ d : dict,
    get_split_audio 2 [{| start := 0; end_ := 33 |}; {| start := 34; end_ := 37 |}]
      orig 16000 effects_split "a" config.AUDIO_SEG_LOWER_LIMIT
      config.AUDIO_SEG_UPPER_LIMIT = Ok d ∧
    ∀ e, e ∈ emitted d →
      in_band config.AUDIO_SEG_LOWER_LIMIT config.AUDIO_SEG_UPPER_LIMIT e.
Proof.
  intros orig effects_split.
  assert (Hrun : ∃ d, get_split_audio 2
                   [{| start := 0; end_ := 33 |}; {| start := 34; end_ := 37 |}]
                   orig 16000 effects_split "a" config.AUDIO_SEG_LOWER_LIMIT
                   config.AUDIO_SEG_UPPER_LIMIT = Ok d)
    by (eexists; vm_compute; reflexivity).
  destruct Hrun as (d & Hrun). exists d. split; [exact Hrun|].
  refine (proj1 (output_in_band_when_lower_at_most_half_upper 2 orig effects_split
                   "a" config.AUDIO_SEG_LOWER_LIMIT config.AUDIO_SEG_UPPER_LIMIT d
                   _ _)).
  - vm_compute. discriminate.
  - left. eexists _, _. exact Hrun.
Defined.

(** ** Runs that never subdivide *)





(** ** Segments of a span on the pyannote path *)

(** X9. In exact arithmetic, taking a segment as the slice requested for
    it: on the pyannote path, for a span with [0 <= start <= end], a positive
    sampling rate and non-mute runs that are ordered, disjoint and inside the
    analysed slice, the segments written for the span are in time order and
    never overlap; none starts before the span, and none ends one sample
    period or more after the span's end. *)
Theorem pyannote_span_segments_within (fuel : nat) (orig : AudioSegment)
    (sr : Q) (effects_split : Z → Z → list (Z * Z)) (id : string)
    (lower upper : Q) (vs : Timeline) (c c' : Z) (d d' : dict) :
  let lo := py_int (sec_to_frame (start vs) sr) in
  let hi := py_int (sec_to_frame (end_ vs) sr) in
  0 < sr → 0 <= start vs → start vs <= end_ vs →
  runs_within 0 (hi - lo) (effects_split lo hi) = true →
  classify_vad_span fuel orig sr effects_split id lower upper vs (c, d)
    = Ok (c', d') →
  ∃ news : list emission,
    d' = apply_writes news d ∧
    non_overlapping news ∧
    ∀ e, e ∈ news →
      sec_to_millis (start vs) <= seg_start_ms (em_segment e) ∧
      seg_start_ms (em_segment e) <= seg_end_ms (em_segment e) ∧
      seg_end_ms (em_segment e) < sec_to_millis (end_ vs + 1 / sr).
Proof.
  intros lo hi Hsr Hs Hse Hruns Hcall. pose proof (Qpos_neq0 _ Hsr) as Hsr'.
  destruct (span_sound fuel orig id lower upper vs _ sr (effects_split lo hi)
              c c' d d' Hcall) as (news & Hsp & _ & ->).
  exists news. split; [done|].
  assert (Hinv : 0 < 1 / sr) by (apply Qlt_shift_div_l; [done|lra]).
  assert (Hover : inject_Z (hi - lo) / sr < end_ vs - start vs + 1 / sr).
  { assert (Hlo : start vs * sr - 1 < inject_Z lo).
    { apply py_int_gt. unfold sec_to_frame. apply Qmult_le_0_compat; [done|lra]. }
    assert (Hhi : inject_Z hi <= end_ vs * sr).
    { apply py_int_le. unfold sec_to_frame. apply Qmult_le_0_compat; [lra|lra]. }
    apply Qlt_shift_div_r; [done|].
    unfold Z.sub. rewrite inject_Z_plus, inject_Z_opp.
    apply Qlt_le_trans with (end_ vs * sr - start vs * sr + 1); [lra|].
    apply Qle_lteq. right. by field. }
  assert (Hchain : ∃ top, top < sec_to_millis (end_ vs + 1 / sr) ∧
                     segments_within (sec_to_millis (start vs)) top news).
  { inversion Hsp as [c0 Hlo Hup|c0 news0 _ Hit|c0 Hlo Hup]; subst.
    - exists (sec_to_millis (end_ vs)). unfold sec_to_millis. split; [lra|].
      simpl. unfold sec_to_millis. split; [apply Qle_refl|].
      split; [lra|apply Qle_refl].
    - exists (sec_to_millis (start vs + inject_Z (hi - lo) / sr)).
      unfold sec_to_millis. split; [lra|].
      pose proof (iterations_chain orig id lower upper vs sr Hsr _ _ _ _ _
                    Hruns Hit) as Hch.
      eapply segments_within_weaken; [| |exact Hch]; unfold sec_to_millis.
      + change (inject_Z 0) with 0. unfold Qdiv. lra.
      + apply Qle_refl.
    - exists (sec_to_millis (end_ vs)). unfold sec_to_millis. split; [lra|].
      simpl. unfold sec_to_millis. lra. }
  destruct Hchain as (top & Htop & Hchain).
  split; [by eapply segments_within_non_overlapping|].
  intros e He. destruct (segments_within_head _ _ _ e Hchain He) as [Ha Hb].
  split; [done|]. split; [by eapply segments_within_slice|lra].
Qed.

Lemma pyannote_span_segments_within_witness :
  let orig := {| seg_start_ms := 0; seg_end_ms := 20000 |} in
  let vs := {| start := 1 # 32768; end_ := 9 |} in
  let effects_split := λ lo hi : Z, [(0, hi - lo)]%Z in
  ∃ (c' : Z) (d' : dict) (news : list emission),
    classify_vad_span 0 orig 16000 effects_split "a" 2 8 vs (1%Z, empty_dict)
      = Ok (c', d') ∧
    d' = apply_writes news empty_dict ∧
    ∀ e, e ∈ news →
      seg_end_ms (em_segment e) < sec_to_millis (end_ vs + 1 / 16000).
Proof.
  intros orig vs effects_split.
  assert (Hrun : ∃ c' d', classify_vad_span 0 orig 16000 effects_split "a" 2 8
                            vs (1%Z, empty_dict) = Ok (c', d'))
    by (eexists _, _; vm_compute; reflexivity).
  destruct Hrun as (c' & d' & Hrun).
  destruct (pyannote_span_segments_within 0 orig 16000 effects_split "a" 2 8 vs
              1 c' empty_dict d') as (news & Hd & _ & Hin).
  - reflexivity.
  - vm_compute. discriminate.
  - vm_compute. discriminate.
  - reflexivity.
  - exact Hrun.
  - exists c', d', news. split; [exact Hrun|]. split; [exact Hd|].
    intros e He. exact (proj2 (proj2 (Hin e He))).
Defined.

(** * The program in binary64: properties *)

(** ** Writes compose *)

Lemma writes_from_refl (id : string) (c : Z) (d : dict) : writes_from id c d c d.
Proof.
  exists []. split; [apply well_keyed_nil|]. split; [simpl; lia|].
  by rewrite apply_writes_nil.
Qed.

Lemma writes_from_trans (id : string) (c1 c2 c3 : Z) (d1 d2 d3 : dict) :
  writes_from id c1 d1 c2 d2 → writes_from id c2 d2 c3 d3 →
  writes_from id c1 d1 c3 d3.
Proof.
  intros (n1 & Hk1 & -> & ->) (n2 & Hk2 & -> & ->).
  exists (n1 ++ n2). split; [by apply well_keyed_app|].
  split; [rewrite length_app; lia|]. by rewrite apply_writes_app.
Qed.

Lemma writes_from_setitem (id : string) (st : stage) (orig : AudioSegment)
    (c : Z) (s e : Q) (d : dict) :
  writes_from id c d (c + 1)
    (setitem st (segment_key id c s e) (getitem orig s e) d).
Proof.
  exists [accept_emission orig id st c s e].
  split; [apply well_keyed_accept|]. split; [done|].
  by rewrite apply_writes_setitem.
Qed.

Lemma b64_for_each_writes {A : Type} (id : string)
    (body : A → Z * dict → binary64.outcome (Z * dict)) (xs : list A) :
  (∀ x c d c' d', body x (c, d) = binary64.Returns (c', d') →
     writes_from id c d c' d') →
  ∀ c d c' d', binary64.for_each xs body (c, d) = binary64.Returns (c', d') →
    writes_from id c d c' d'.
Proof.
  intros Hbody. induction xs as [|x xs IH]; intros c d c' d'; simpl.
  - intros [= <- <-]. apply writes_from_refl.
  - destruct (body x (c, d)) as [[c1 d1]| |] eqn:E; simpl; [|done|done].
    intros Hrest. eapply writes_from_trans; [by eapply Hbody|by eapply IH].
Qed.

Lemma finite_exact (x : float) :
  finite x = true → ∃ q, binary64.exact x = binary64.Returns q.
Proof.
  unfold finite. destruct (binary64.exact x) as [q| |]; [by exists q|done|done].
Qed.

(** A write of the program: both bounds finite, one keyed entry. *)
Lemma b64_write_writes (id : string) (st : stage) (orig : AudioSegment)
    (start_ms end_ms : float) (c c' : Z) (d d' : dict) :
  (s ← binary64.exact start_ms;
   e ← binary64.exact end_ms;
   binary64.Returns ((c + 1)%Z,
                     setitem st (segment_key id c s e) (getitem orig s e) d))
  = binary64.Returns (c', d') →
  writes_from id c d c' d'.
Proof.
  destruct (binary64.exact start_ms) as [s| |]; [|done..].
  destruct (binary64.exact end_ms) as [e| |]; [|done..].
  cbn. intros [= <- <-]. apply writes_from_setitem.
Qed.

Lemma b64_chop_iteration_writes cl n orig vs split_start sr id (i c : Z)
    (d : dict) (c' : Z) (d' : dict) :
  binary64.chop_iteration cl n orig vs split_start sr id i (c, d)
    = binary64.Returns (c', d') →
  writes_from id c d c' d'.
Proof.
  unfold binary64.chop_iteration.
  destruct (binary64.chop_bounds cl vs split_start sr i) as [start_ms end_ms].
  apply b64_write_writes.
Qed.

Lemma b64_chop_writes fuel D U orig vs split_start sr id (c c' : Z) (d d' : dict) :
  binary64.chop_long_segment_duration fuel D U orig vs split_start sr id d c
    = binary64.Returns (c', d') →
  writes_from id c d c' d'.
Proof.
  unfold binary64.chop_long_segment_duration.
  destruct (binary64.while_halve fuel _ U) as [cl| |]; [|done..]. cbn.
  destruct (binary64.to_int _) as [n| |]; [|done..]. cbn.
  apply b64_for_each_writes. apply b64_chop_iteration_writes.
Qed.

Lemma b64_process_segment_writes fuel orig vs sr lower upper id split
    (c : Z) (d : dict) (c' : Z) (d' : dict) :
  binary64.process_non_mute_segment fuel orig vs sr lower upper id split (c, d)
    = binary64.Returns (c', d') →
  writes_from id c d c' d'.
Proof.
  unfold binary64.process_non_mute_segment.
  destruct (_ && _).
  - apply b64_write_writes.
  - destruct (_ <? _)%float.
    + apply b64_chop_writes.
    + intros [= <- <-]. apply writes_from_refl.
Qed.

Lemma b64_process_writes fuel runs orig vs sr lower upper id (c c' : Z) (d d' : dict) :
  binary64.process_non_mute_segments fuel runs orig vs sr lower upper id c d
    = binary64.Returns (c', d') →
  writes_from id c d c' d'.
Proof.
  apply b64_for_each_writes. apply b64_process_segment_writes.
Qed.

Lemma b64_classify_vad_span_writes fuel orig sr effects_split id lower upper vs
    (c : Z) (d : dict) (c' : Z) (d' : dict) :
  binary64.classify_vad_span fuel orig sr effects_split id lower upper vs (c, d)
    = binary64.Returns (c', d') →
  writes_from id c d c' d'.
Proof.
  unfold binary64.classify_vad_span.
  destruct (_ && _).
  - apply b64_write_writes.
  - destruct (_ <? _)%float.
    + destruct (binary64.to_int (binary64.sec_to_frame (binary64.start vs) _))
        as [lo| |]; cbn; [|done..].
      destruct (binary64.to_int _) as [hi| |]; cbn; [|done..].
      apply b64_process_writes.
    + intros [= <- <-]. apply writes_from_refl.
Qed.

Lemma b64_classify_timestamp_writes fuel orig effects_split id lower upper ts
    (c : Z) (d : dict) (c' : Z) (d' : dict) :
  binary64.classify_timestamp fuel orig effects_split id lower upper ts (c, d)
    = binary64.Returns (c', d') →
  writes_from id c d c' d'.
Proof.
  unfold binary64.classify_timestamp.
  destruct (_ && _).
  - apply b64_write_writes.
  - destruct (_ <? _)%float.
    + apply b64_process_writes.
    + intros [= <- <-]. apply writes_from_refl.
Qed.

(** ** Sequence numbers and keys of a run *)

Lemma b64_pyannote_loop_writes fuel timeline orig sr effects_split id lower upper
    (c c' : Z) (d d' : dict) :
  binary64.get_split_audio_loop fuel timeline orig sr effects_split id lower
    upper c d = binary64.Returns (c', d') →
  writes_from id c d c' d'.
Proof.
  apply b64_for_each_writes. intros vs c0 d0 c1 d1.
  apply b64_classify_vad_span_writes.
Qed.

Lemma b64_silero_loop_writes fuel speech_timestamps orig effects_split id lower
    upper (c c' : Z) (d d' : dict) :
  binary64.get_split_audio_using_silero_loop fuel speech_timestamps orig
    effects_split id lower upper c d = binary64.Returns (c', d') →
  writes_from id c d c' d'.
Proof.
  apply b64_for_each_writes. intros ts c0 d0 c1 d1.
  apply b64_classify_timestamp_writes.
Qed.

Lemma run_keys_in_sequence (id : string) (c : Z) (d : dict) :
  run_keys id c d → keys_in_sequence id c d.
Proof.
  intros (Hc & Hk & Hn & Hs). split; [done|]. split; [|done].
  intros i e Hi. destruct (Hk i e Hi) as (H1 & H2 & _).
  split; [exact H1|exact H2].
Qed.

(** [int(f"{z}") == z]: the decimal field of a key reads back as the
    integer it was formatted from. *)
Lemma parse_int_format_int (z : Z) : parse_int (format_int z) = Some z.
Proof.
  unfold parse_int, format_int.
  rewrite NilZero.isi.
  - simpl. by rewrite DecimalZ.of_to.
  - destruct z as [|p|p]; simpl; try done.
    intros [= H]. by apply Unsigned.to_uint_nonnil in H.
  - destruct z as [|p|p]; simpl; try done.
    intros [= H]. by apply Unsigned.to_uint_nonnil in H.
Qed.

Lemma zfill_nonnil (w : nat) (d : uint) : d ≠ Nil → zfill w d ≠ Nil.
Proof.
  unfold zfill. intros Hd. by destruct (w - nb_digits d)%nat.
Qed.

Lemma to_int_nonnil (z : Z) (d : uint) :
  Z.to_int z = Decimal.Pos d ∨ Z.to_int z = Decimal.Neg d → d ≠ Nil.
Proof.
  destruct z as [|p|p]; simpl; intros [[= <-]|[= <-]]; try done;
    apply Unsigned.to_uint_nonnil.
Qed.

Lemma uint_of_string_zfill (w : nat) (d : uint) :
  d ≠ Nil →
  NilZero.uint_of_string (NilEmpty.string_of_uint (zfill w d))
  = Some (zfill w d).
Proof.
  intros Hd. pose proof (zfill_nonnil w d Hd) as Hz.
  pose proof (NilEmpty.usu (zfill w d)) as Hu.
  destruct (zfill w d) as [|u|u|u|u|u|u|u|u|u|u]; done.
Qed.

(** [int(f"{z:04}") == z]: the padding of the sequence number does not
    change the integer it reads as. *)
Lemma parse_int_format_04 (z : Z) : parse_int (format_04 z) = Some z.
Proof.
  unfold parse_int, format_04.
  destruct (Z.to_int z) as [d|d] eqn:E.
  - assert (Hd : d ≠ Nil) by (apply (to_int_nonnil z); by left).
    pose proof (uint_of_string_zfill 4 d Hd) as Hu.
    pose proof (all_digits_string_of_uint (zfill 4 d)) as Ha.
    destruct (NilEmpty.string_of_uint (zfill 4 d)) as [|a s] eqn:Es.
    { by pose proof (zfill_nonnil 4 d Hd) as Hz;
        destruct (zfill 4 d) as [|u|u|u|u|u|u|u|u|u|u]. }
    unfold NilZero.int_of_string.
    destruct (Ascii.eqb_spec a "-") as [->|Hne]; [done|].
    rewrite Hu. simpl. f_equal.
    rewrite <- (DecimalZ.of_to z), E. simpl. unfold Z.of_uint.
    by rewrite of_uint_zfill.
  - assert (Hd : d ≠ Nil) by (apply (to_int_nonnil z); by right).
    simpl. rewrite (uint_of_string_zfill 3 d Hd). simpl. f_equal.
    rewrite <- (DecimalZ.of_to z), E. simpl. unfold Z.of_uint.
    by rewrite of_uint_zfill.
Qed.

(** [int(x)] on a number truncates toward zero: the floor of a nonnegative
    number, the ceiling of a nonpositive one. *)
Lemma py_int_truncates (q : Q) :
  (0 <= q → py_int q = Qfloor q) ∧ (q <= 0 → py_int q = Qceiling q).
Proof.
  split; [apply py_int_floor|].
  destruct q as [n p]. unfold py_int, Qceiling, Qfloor, Qle. simpl.
  rewrite Z.mul_1_r. intros Hn.
  rewrite <- (Z.opp_involutive n) at 1.
  rewrite Z.quot_opp_l by done. f_equal.
  apply Z.quot_div_nonneg; lia.
Qed.

(** C7. In a run of either backend, as it computes in binary64, the
    sequence number is one counter, started at 1 and incremented once per
    written segment whatever the stage: the final counter is one more than
    the number of writes, and the [i]-th write (from 0) is stored under the
    key [{id}_{1+i:04}_{int(start_ms)}_to_{int(end_ms)}] built from the
    bounds of its own segment; the keys are pairwise distinct and the dict
    has one entry per write.  The fields of a key are decimal numbers: each
    reads back as the integer it was formatted from, the sequence number is
    four characters wide up to 9999, and [int] truncates toward zero. *)
Theorem run_keys_sequential_distinct (fuel : nat) (orig : AudioSegment)
    (effects_split : Z → Z → list (Z * Z)) (id : string) (lower upper : float)
    (d : dict) :
  (∀ (timeline : list binary64.Timeline) (sr : Z),
     binary64.get_split_audio fuel timeline orig sr effects_split id lower upper
       = binary64.Returns d →
     ∃ c, binary64.get_split_audio_loop fuel timeline orig sr effects_split id
            lower upper 1 empty_dict = binary64.Returns (c, d) ∧
          keys_in_sequence id c d) ∧
  (∀ (speech_timestamps : list (Z * Z)),
     forallb sample_span speech_timestamps = true →
     binary64.get_split_audio_using_silero fuel speech_timestamps orig
       effects_split id lower upper = binary64.Returns d →
     ∃ c, binary64.get_split_audio_using_silero_loop fuel speech_timestamps
            orig effects_split id lower upper 1 empty_dict
            = binary64.Returns (c, d) ∧
          keys_in_sequence id c d) ∧
  (∀ z : Z, parse_int (format_int z) = Some z) ∧
  (∀ z : Z, parse_int (format_04 z) = Some z ∧
            ((0 <= z <= 9999)%Z → String.length (format_04 z) = 4%nat)) ∧
  (∀ q : Q, (0 <= q → py_int q = Qfloor q) ∧ (q <= 0 → py_int q = Qceiling q)).
Proof.
  split; [|split; [|split; [|split]]].
  - intros timeline sr. unfold binary64.get_split_audio.
    destruct (binary64.get_split_audio_loop _ _ _ _ _ _ _ _ _ _)
      as [[c d0]| |] eqn:E; cbn; [|done..].
    intros [= ->]. exists c. split; [done|].
    by eapply run_keys_in_sequence, writes_from_run_keys,
      b64_pyannote_loop_writes.
  - intros speech_timestamps _. unfold binary64.get_split_audio_using_silero.
    destruct (binary64.get_split_audio_using_silero_loop _ _ _ _ _ _ _ _ _)
      as [[c d0]| |] eqn:E; cbn; [|done..].
    intros [= ->]. exists c. split; [done|].
    by eapply run_keys_in_sequence, writes_from_run_keys,
      b64_silero_loop_writes.
  - apply parse_int_format_int.
  - intros z. split; [apply parse_int_format_04|].
    intros Hz. apply format_04_width. lia.
  - apply py_int_truncates.
Qed.

Lemma run_keys_sequential_distinct_witness :
  let orig := {| seg_start_ms := 0; seg_end_ms := 30000 |} in
  let effects_split := λ lo hi : Z, [(0, hi - lo)]%Z in
  ∃ (c : Z) (d : dict),
    binary64.get_split_audio_using_silero_loop 2 [(32288, 176288); (180000, 260000)]%Z
      orig effects_split "a" 2 8 1 empty_dict = binary64.Returns (c, d) ∧
    keys_in_sequence "a" c d.
Proof.
  intros orig effects_split.
  assert (Hrun : ∃ d, binary64.get_split_audio_using_silero 2
                   [(32288, 176288); (180000, 260000)]%Z
                   orig effects_split "a" 2 8 = binary64.Returns d)
    by (eexists; vm_compute; reflexivity).
  destruct Hrun as [d Hd].
  destruct (proj1 (proj2 (run_keys_sequential_distinct 2 orig effects_split "a"
                            2 8 d))
              [(32288, 176288); (180000, 260000)]%Z eq_refl Hd)
    as (c & Hloop & Hkeys).
  exists c, d. split; [exact Hloop|exact Hkeys].
Defined.

(** ** A span in the band *)

Lemma accepts_bounds_write (st : stage) (id : string) (c : Z) (d : dict)
    (orig : AudioSegment) (start_ms end_ms : float) :
  fresh id c (items d) → finite start_ms = true → finite end_ms = true →
  accepts_bounds
    (s ← binary64.exact start_ms;
     e ← binary64.exact end_ms;
     binary64.Returns ((c + 1)%Z,
                       setitem st (segment_key id c s e) (getitem orig s e) d))
    st id c d orig start_ms end_ms.
Proof.
  intros Hf Hs He.
  destruct (finite_exact _ Hs) as [s Es], (finite_exact _ He) as [e Ee].
  exists s, e. eexists. rewrite Es, Ee. cbn.
  split; [done|]. split; [done|]. split; [done|]. split; [done|].
  split; [done|]. apply Hf. lia.
Qed.

(** A sub-span of exactly [lower_limit] seconds that is dropped, and one of
    exactly [upper_limit] seconds that is chopped.  On the Silero path, with
    the limits 2 and 8: the run of frames 0 to 32000 (2 s at 16 kHz) of the
    span starting at frame 1 has the computed duration 1.9999999999999998 and
    is not written; the run of frames 1600 to 129600 (8 s) of the span
    starting at frame 126428 has the computed duration 8.0000000000000018 and
    is written as two chops. *)
Lemma in_band_sub_span_not_accepted :
  let orig := {| seg_start_ms := 0; seg_end_ms := 30000 |} in
  inject_Z (32000 - 0) / 16000 == 2 ∧
  binary64.process_non_mute_segment 0 orig (binary64.silero_span (1, 160001)%Z)
    16000 2 8 "a" (0, 32000)%Z (1%Z, empty_dict)
  = binary64.Returns (1%Z, empty_dict) ∧
  binary64.get_split_audio_using_silero 0 [(1, 160001)%Z] orig
    (λ _ _, [(0, 32000)%Z]) "a" 2 8 = binary64.Returns empty_dict ∧
  inject_Z (129600 - 1600) / 16000 == 8 ∧
  ∃ d : dict,
    binary64.process_non_mute_segment 1 orig
      (binary64.silero_span (126428, 400000)%Z) 16000 2 8 "a"
      (1600, 129600)%Z (1%Z, empty_dict) = binary64.Returns (3%Z, d) ∧
    em_key <$> emitted d = ["a_0001_8001_to_12001"; "a_0002_12001_to_16001"].
Proof.
  intros orig. split; [reflexivity|]. split; [vm_compute; reflexivity|].
  split; [vm_compute; reflexivity|]. split; [reflexivity|].
  eexists. split; vm_compute; reflexivity.
Qed.

(** C2 (amended). A span or sub-span whose duration, as the code computes it
    in binary64, lies in [[lower_limit, upper_limit]] and whose millisecond
    bounds are finite is written as exactly one segment: the slice requested
    between the millisecond bounds of the whole span, under a key that was
    not in the dict, with the counter grown by one.  The computed duration is
    [end - start] for a pyannote span, [(end_frame - start_frame) / 16000]
    for a Silero span and the difference of the two rounded bounds for a
    sub-span.  [fresh] holds of every state of a run: the keys present carry
    smaller sequence numbers. *)
Theorem in_band_span_accepted (fuel : nat) (orig : AudioSegment) (id : string)
    (lower upper : float) (c : Z) (d : dict) :
  fresh id c (items d) →
  (∀ (sr : Z) (effects_split : Z → Z → list (Z * Z)) (vs : binary64.Timeline),
     (lower <=? binary64.end_ vs - binary64.start vs)%float = true →
     (binary64.end_ vs - binary64.start vs <=? upper)%float = true →
     finite (binary64.sec_to_millis (binary64.start vs)) = true →
     finite (binary64.sec_to_millis (binary64.end_ vs)) = true →
     accepts_bounds
       (binary64.classify_vad_span fuel orig sr effects_split id lower upper vs
          (c, d))
       Classifier id c d orig
       (binary64.sec_to_millis (binary64.start vs))
       (binary64.sec_to_millis (binary64.end_ vs))) ∧
  (∀ (effects_split : Z → Z → list (Z * Z)) (ts : Z * Z),
     sample_span ts = true →
     (lower <=? binary64.of_int (ts.2 - ts.1) / 16000)%float = true →
     (binary64.of_int (ts.2 - ts.1) / 16000 <=? upper)%float = true →
     finite (binary64.sec_to_millis (binary64.of_int ts.1 / 16000)) = true →
     finite (binary64.sec_to_millis (binary64.of_int ts.2 / 16000)) = true →
     accepts_bounds
       (binary64.classify_timestamp fuel orig effects_split id lower upper ts
          (c, d))
       Classifier id c d orig
       (binary64.sec_to_millis (binary64.of_int ts.1 / 16000))
       (binary64.sec_to_millis (binary64.of_int ts.2 / 16000))) ∧
  (∀ (vs : binary64.Timeline) (sr : Z) (split : Z * Z),
     let start_s := (binary64.start vs
                     + binary64.frame_to_sec (binary64.of_int split.1)
                         (binary64.of_int sr))%float in
     let end_s := (binary64.start vs
                   + binary64.frame_to_sec (binary64.of_int split.2)
                       (binary64.of_int sr))%float in
     (lower <=? end_s - start_s)%float = true →
     (end_s - start_s <=? upper)%float = true →
     finite (binary64.sec_to_millis start_s) = true →
     finite (binary64.sec_to_millis end_s) = true →
     accepts_bounds
       (binary64.process_non_mute_segment fuel orig vs sr lower upper id split
          (c, d))
       Subdivider id c d orig
       (binary64.sec_to_millis start_s) (binary64.sec_to_millis end_s)).
Proof.
  intros Hf. split; [|split].
  - intros sr effects_split vs Hlo Hup Hs He.
    unfold binary64.classify_vad_span. rewrite Hlo, Hup. cbn [andb].
    by apply accepts_bounds_write.
  - intros effects_split ts _ Hlo Hup Hs He.
    unfold binary64.classify_timestamp. rewrite Hlo, Hup. cbn [andb].
    by apply accepts_bounds_write.
  - intros vs sr split start_s end_s Hlo Hup Hs He.
    unfold binary64.process_non_mute_segment, binary64.computed_duration.
    fold start_s end_s. rewrite Hlo, Hup. cbn [andb].
    by apply accepts_bounds_write.
Qed.

Lemma in_band_span_accepted_witness :
  let orig := {| seg_start_ms := 0; seg_end_ms := 20000 |} in
  accepts_bounds
    (binary64.classify_vad_span 0 orig 16000 (λ _ _, []) "a" 2 8
       {| binary64.start := 0; binary64.end_ := 5 |} (1%Z, empty_dict))
    Classifier "a" 1 empty_dict orig
    (binary64.sec_to_millis 0) (binary64.sec_to_millis 5) ∧
  accepts_bounds
    (binary64.classify_timestamp 0 orig (λ _ _, []) "a" 2 8 (32288, 96288)%Z
       (1%Z, empty_dict))
    Classifier "a" 1 empty_dict orig
    (binary64.sec_to_millis (binary64.of_int 32288 / 16000))
    (binary64.sec_to_millis (binary64.of_int 96288 / 16000)) ∧
  accepts_bounds
    (binary64.process_non_mute_segment 0 orig
       {| binary64.start := 2; binary64.end_ := 11 |} 16000 2 8 "a"
       (0, 80000)%Z (1%Z, empty_dict))
    Subdivider "a" 1 empty_dict orig
    (binary64.sec_to_millis
       (2 + binary64.frame_to_sec (binary64.of_int 0) (binary64.of_int 16000)))
    (binary64.sec_to_millis
       (2 + binary64.frame_to_sec (binary64.of_int 80000) (binary64.of_int 16000))).
Proof.
  intros orig.
  destruct (in_band_span_accepted 0 orig "a" 2 8 1 empty_dict (fresh_empty "a" 1))
    as (H1 & H2 & H3).
  split; [|split].
  - apply (H1 16000%Z (λ _ _, []) {| binary64.start := 0; binary64.end_ := 5 |});
      reflexivity.
  - apply (H2 (λ _ _, []) (32288, 96288)%Z); reflexivity.
  - apply (H3 {| binary64.start := 2; binary64.end_ := 11 |} 16000%Z
             (0, 80000)%Z); reflexivity.
Defined.

(** ** The chops of a call *)

Lemma b64_chop_iteration_step cl n orig vs split_start sr id (i c : Z)
    (d : dict) (s t : Q) :
  binary64.exact (chop_boundary cl vs split_start sr i) = binary64.Returns s →
  binary64.exact (chop_boundary cl vs split_start sr (i + 1))
    = binary64.Returns t →
  binary64.chop_iteration cl n orig vs split_start sr id i (c, d)
  = binary64.Returns ((c + 1)%Z,
                      setitem (Chopper i n) (segment_key id c s t)
                        (getitem orig s t) d).
Proof.
  intros Es Et.
  change (binary64.chop_iteration cl n orig vs split_start sr id i (c, d))
    with (s ← binary64.exact (chop_boundary cl vs split_start sr i);
          e ← binary64.exact (chop_boundary cl vs split_start sr (i + 1));
          binary64.Returns ((c + 1)%Z,
                            setitem (Chopper i n) (segment_key id c s e)
                              (getitem orig s e) d)).
  by rewrite Es, Et.
Qed.

Lemma b64_chop_loop cl n orig vs split_start sr id (k : nat) :
  ∀ (i0 c : Z) (d : dict),
    forallb (λ i, finite (chop_boundary cl vs split_start sr i))
      (seqZ i0 (Z.of_nat k + 1)) = true →
    ∃ news : list emission,
      binary64.for_each (seqZ i0 (Z.of_nat k))
        (binary64.chop_iteration cl n orig vs split_start sr id) (c, d)
      = binary64.Returns ((c + Z.of_nat k)%Z, apply_writes news d) ∧
      length news = k ∧
      ∀ (j : nat) (e : emission), news !! j = Some e →
        ∃ s t : Q,
          binary64.exact (chop_boundary cl vs split_start sr (i0 + Z.of_nat j))
            = binary64.Returns s ∧
          binary64.exact
            (chop_boundary cl vs split_start sr (i0 + Z.of_nat j + 1))
            = binary64.Returns t ∧
          em_stage e = Chopper (i0 + Z.of_nat j) n ∧
          em_segment e = getitem orig s t ∧
          em_key e = segment_key id (c + Z.of_nat j) s t.
Proof.
  induction k as [|k IH]; intros i0 c d Hfin.
  - exists []. split; [|split; [done|]].
    + simpl. rewrite apply_writes_nil. do 2 f_equal. lia.
    + intros j e. by rewrite lookup_nil.
  - rewrite seqZ_cons in Hfin by lia. cbn [forallb] in Hfin.
    apply andb_true_iff in Hfin as [H0 Hrest].
    replace (Z.pred (Z.of_nat (S k) + 1)) with (Z.of_nat k + 1)%Z in Hrest by lia.
    assert (H1 : finite (chop_boundary cl vs split_start sr (Z.succ i0)) = true).
    { rewrite seqZ_cons in Hrest by lia. cbn [forallb] in Hrest.
      by apply andb_true_iff in Hrest as [? _]. }
    destruct (finite_exact _ H0) as [s Es], (finite_exact _ H1) as [t Et].
    destruct (IH (Z.succ i0) (c + 1)%Z
                (setitem (Chopper i0 n) (segment_key id c s t)
                   (getitem orig s t) d) Hrest)
      as (rest & Hloop & Hlen & Hall).
    exists ({| em_key := segment_key id c s t; em_segment := getitem orig s t;
               em_stage := Chopper i0 n |} :: rest).
    split; [|split].
    + rewrite seqZ_cons by lia.
      replace (Z.pred (Z.of_nat (S k))) with (Z.of_nat k) by lia.
      cbn [binary64.for_each].
      rewrite (b64_chop_iteration_step cl n orig vs split_start sr id i0 c d s t)
        by (try done; by replace (i0 + 1)%Z with (Z.succ i0) by lia).
      cbn [mbind binary64.outcome_bind].
      rewrite Hloop. f_equal. f_equal; [lia|].
      change (_ :: rest) with ([{| em_key := segment_key id c s t;
                                   em_segment := getitem orig s t;
                                   em_stage := Chopper i0 n |}] ++ rest).
      by rewrite <- apply_writes_app, <- apply_writes_setitem.
    + simpl. by rewrite Hlen.
    + intros [|j] e Hj.
      * injection Hj as <-. exists s, t. cbn [em_stage em_segment em_key].
        rewrite !Z.add_0_r. replace (i0 + 1)%Z with (Z.succ i0) by lia. done.
      * destruct (Hall j e Hj) as (s' & t' & E1 & E2 & H3 & H4 & H5).
        exists s', t'.
        replace (i0 + Z.of_nat (S j))%Z with (Z.succ i0 + Z.of_nat j)%Z by lia.
        replace (c + Z.of_nat (S j))%Z with (c + 1 + Z.of_nat j)%Z by lia.
        done.
Qed.

(** Two chops of one call that do not have the same width.  On the Silero
    path, with [upper_limit = 8]: for the run of frames 1600 to 129600 of the
    span starting at frame 126428 the chopper is called with the computed
    duration 8.0000000000000018; it writes two chops that share their
    boundary, the second 4000 ms wide and the first wider. *)
Lemma chops_of_unequal_width :
  let orig := {| seg_start_ms := 0; seg_end_ms := 30000 |} in
  let vs := binary64.silero_span (126428, 400000)%Z in
  let D := binary64.computed_duration vs 16000 (1600, 129600)%Z in
  ∃ (e1 e2 : emission) (d : dict),
    binary64.chop_long_segment_duration 1 D 8 orig vs 1600 16000 "a"
      empty_dict 1 = binary64.Returns (3%Z, d) ∧
    emitted d = [e1; e2] ∧
    em_key e1 = "a_0001_8001_to_12001" ∧
    em_key e2 = "a_0002_12001_to_16001" ∧
    seg_end_ms (em_segment e1) = seg_start_ms (em_segment e2) ∧
    width_ms (em_segment e2) == 4000 ∧
    ¬ width_ms (em_segment e1) == width_ms (em_segment e2).
Proof.
  intros orig vs D. eexists _, _, _.
  split; [vm_compute; reflexivity|]. split; [reflexivity|].
  split; [reflexivity|]. split; [reflexivity|]. split; [reflexivity|].
  split; [reflexivity|]. intros H. vm_compute in H. discriminate.
Qed.

(** C5 (amended). Once the halving has returned [chop_length], the chopper
    writes [n = int(duration / chop_length)] chops, the quotient being the
    one computed in binary64.  Chop [i] is the slice requested from boundary
    [i] to boundary [i + 1], where boundary [j] is the double
    [(start + split_start / sampling_rate + chop_length * j) * 1000]: each
    chop starts at the very offset at which the previous one ends, and
    nothing is written past boundary [n].  Chop [i] carries the sequence
    number [counter + i]; no lower limit enters the function.  The
    boundaries are rounded one by one, so the widths of the chops need not
    be equal. *)
Theorem chopper_chops_consecutive (fuel : nat) (D upper_limit : float)
    (orig : AudioSegment) (vs : binary64.Timeline) (split_start sr : Z)
    (id : string) (d : dict) (counter : Z) (chop_length : float) (n : Z) :
  binary64.while_halve fuel (D / 2)%float upper_limit
    = binary64.Returns chop_length →
  binary64.to_int (D / chop_length)%float = binary64.Returns n →
  forallb (λ i, finite (chop_boundary chop_length vs split_start sr i))
    (range (n + 1)) = true →
  ∃ news : list emission,
    binary64.chop_long_segment_duration fuel D upper_limit orig vs split_start
      sr id d counter
    = binary64.Returns ((counter + Z.of_nat (length news))%Z,
                        apply_writes news d) ∧
    length news = Z.to_nat n ∧
    ∀ (i : nat) (e : emission), news !! i = Some e →
      ∃ s t : Q,
        binary64.exact (chop_boundary chop_length vs split_start sr (Z.of_nat i))
          = binary64.Returns s ∧
        binary64.exact
          (chop_boundary chop_length vs split_start sr (Z.of_nat i + 1))
          = binary64.Returns t ∧
        em_stage e = Chopper (Z.of_nat i) n ∧
        em_segment e = getitem orig s t ∧
        em_key e = segment_key id (counter + Z.of_nat i) s t.
Proof.
  intros Hw Hn Hfin. unfold binary64.chop_long_segment_duration.
  rewrite Hw. cbn [mbind binary64.outcome_bind].
  rewrite Hn. cbn [mbind binary64.outcome_bind].
  destruct (Z.le_gt_cases n 0) as [Hle|Hpos].
  - exists []. unfold range. rewrite seqZ_nil by done.
    split; [|split].
    + simpl. rewrite apply_writes_nil. do 2 f_equal. lia.
    + simpl. lia.
    + intros i e. by rewrite lookup_nil.
  - unfold range in *.
    replace n with (Z.of_nat (Z.to_nat n)) in Hfin at 1 by lia.
    destruct (b64_chop_loop chop_length n orig vs split_start sr id
                (Z.to_nat n) 0 counter d Hfin) as (news & Hloop & Hlen & Hall).
    exists news. split; [|split; [done|]].
    + replace n with (Z.of_nat (Z.to_nat n)) at 1 by lia.
      by rewrite Hloop, Hlen.
    + intros i e Hi. destruct (Hall i e Hi) as (s & t & H). exists s, t.
      by rewrite !Z.add_0_l in H.
Qed.

Lemma chopper_chops_consecutive_witness :
  let orig := {| seg_start_ms := 0; seg_end_ms := 30000 |} in
  let vs := binary64.silero_span (126428, 400000)%Z in
  let D := binary64.computed_duration vs 16000 (1600, 129600)%Z in
  ∃ news : list emission,
    binary64.chop_long_segment_duration 1 D 8 orig vs 1600 16000 "a"
      empty_dict 1
    = binary64.Returns ((1 + Z.of_nat (length news))%Z,
                        apply_writes news empty_dict) ∧
    length news = 2%nat.
Proof.
  intros orig vs D.
  destruct (chopper_chops_consecutive 1 D 8 orig vs 1600 16000 "a" empty_dict 1
              (D / 2)%float 2)
    as (news & Hcall & Hlen & _).
  - vm_compute. reflexivity.
  - vm_compute. reflexivity.
  - vm_compute. reflexivity.
  - exists news. split; [exact Hcall|exact Hlen].
Defined.

(** ** Rounding *)

(** A round trip through the converters that does not return its input:
    [frame_to_sec(sec_to_frame(0.1, 3), 3)] is 0.10000000000000002, and
    [sec_to_frame(frame_to_sec(1, 49), 49)] is 0.99999999999999989. *)
Lemma round_trip_not_identity :
  let s := (1 / 10)%float in
  PrimFloat.eqb
    (binary64.frame_to_sec (binary64.sec_to_frame s 3) 3) s = false ∧
  (s <? binary64.frame_to_sec (binary64.sec_to_frame s 3) 3)%float = true ∧
  PrimFloat.eqb
    (binary64.sec_to_frame (binary64.frame_to_sec 1 49) 49) 1 = false ∧
  (binary64.sec_to_frame (binary64.frame_to_sec 1 49) 49 <? 1)%float = true.
Proof. intros s. repeat split; vm_compute; reflexivity. Qed.

(** On the Silero path with the limits 2 and 8: the span of frames 32288 to
    160288 has the computed duration 8.0 and is accepted, and the slice
    stored for it is wider than 8000 ms; the span of frames 32 to 32032 has
    the computed duration 2.0 and is accepted, and the slice stored for it
    is narrower than 2000 ms. *)
Lemma accepted_slice_outside_band :
  let orig := {| seg_start_ms := 0; seg_end_ms := 30000 |} in
  (∃ (e : emission) (d : dict),
     binary64.get_split_audio_using_silero 0 [(32288, 160288)%Z] orig
       (λ _ _, []) "a" 2 8 = binary64.Returns d ∧
     emitted d = [e] ∧ em_stage e = Classifier ∧
     em_key e = "a_0001_2017_to_10018" ∧
     8 * 1000 < width_ms (em_segment e)) ∧
  (∃ (e : emission) (d : dict),
     binary64.get_split_audio_using_silero 0 [(32, 32032)%Z] orig
       (λ _ _, []) "a" 2 8 = binary64.Returns d ∧
     emitted d = [e] ∧ em_stage e = Classifier ∧
     em_key e = "a_0001_2_to_2001" ∧
     width_ms (em_segment e) < 2 * 1000).
Proof.
  intros orig. split; eexists _, _;
    (split; [vm_compute; reflexivity|]); repeat split; reflexivity.
Qed.

(** On the Silero path with the limits 2 and 8: for the span of frames 32288
    to 176288 (9 s) and one run that fills it, the two chops written are
    together wider than 9000 ms. *)
Lemma chops_wider_than_span :
  let orig := {| seg_start_ms := 0; seg_end_ms := 30000 |} in
  inject_Z (176288 - 32288) / 16000 == 9 ∧
  ∃ (e1 e2 : emission) (d : dict),
    binary64.get_split_audio_using_silero 1 [(32288, 176288)%Z] orig
      (λ lo hi, [(0, hi - lo)]%Z) "a" 2 8 = binary64.Returns d ∧
    emitted d = [e1; e2] ∧
    em_key e1 = "a_0001_2017_to_6518" ∧
    em_key e2 = "a_0002_6518_to_11018" ∧
    9 * 1000 < width_ms (em_segment e1) + width_ms (em_segment e2).
Proof.
  intros orig. split; [reflexivity|]. eexists _, _, _.
  split; [vm_compute; reflexivity|]. repeat split; reflexivity.
Qed.

(** ** Where the segments of a run come from *)

Lemma writes_with_refl (P : emission → Prop) (c : Z) (d : dict) :
  writes_with P c d c d.
Proof.
  exists []. split; [constructor|]. split; [simpl; lia|].
  by rewrite apply_writes_nil.
Qed.

Lemma writes_with_trans (P : emission → Prop) (c1 c2 c3 : Z) (d1 d2 d3 : dict) :
  writes_with P c1 d1 c2 d2 → writes_with P c2 d2 c3 d3 →
  writes_with P c1 d1 c3 d3.
Proof.
  intros (n1 & H1 & -> & ->) (n2 & H2 & -> & ->).
  exists (n1 ++ n2). split; [by apply Forall_app|].
  split; [rewrite length_app; lia|]. by rewrite apply_writes_app.
Qed.

Lemma b64_for_each_writes_with {A : Type} (P : emission → Prop)
    (body : A → Z * dict → binary64.outcome (Z * dict)) (xs : list A) :
  (∀ x c d c' d', x ∈ xs → body x (c, d) = binary64.Returns (c', d') →
     writes_with P c d c' d') →
  ∀ c d c' d', binary64.for_each xs body (c, d) = binary64.Returns (c', d') →
    writes_with P c d c' d'.
Proof.
  induction xs as [|x xs IH]; intros Hbody c d c' d'; simpl.
  - intros [= <- <-]. apply writes_with_refl.
  - destruct (body x (c, d)) as [[c1 d1]| |] eqn:E; simpl; [|done|done].
    intros Hrest. eapply writes_with_trans.
    + eapply Hbody; [apply list_elem_of_here|exact E].
    + eapply IH; [|exact Hrest]. intros y ? ? ? ? Hy.
      apply Hbody. by apply list_elem_of_further.
Qed.

Lemma b64_write_with (P : emission → Prop) (id : string) (st : stage)
    (orig : AudioSegment) (start_ms end_ms : float) (c c' : Z) (d d' : dict) :
  (∀ s e : Q,
     binary64.exact start_ms = binary64.Returns s →
     binary64.exact end_ms = binary64.Returns e →
     P {| em_key := segment_key id c s e; em_segment := getitem orig s e;
          em_stage := st |}) →
  (s ← binary64.exact start_ms;
   e ← binary64.exact end_ms;
   binary64.Returns ((c + 1)%Z,
                     setitem st (segment_key id c s e) (getitem orig s e) d))
  = binary64.Returns (c', d') →
  writes_with P c d c' d'.
Proof.
  intros HP.
  destruct (binary64.exact start_ms) as [s| |] eqn:Es; [|done..].
  destruct (binary64.exact end_ms) as [e| |] eqn:Ee; [|done..].
  cbn. intros [= <- <-].
  exists [{| em_key := segment_key id c s e; em_segment := getitem orig s e;
             em_stage := st |}].
  split; [constructor; [by apply HP|constructor]|]. split; [done|].
  by rewrite <- apply_writes_setitem.
Qed.

(** The length on which the halving loop stops. *)
Lemma b64_while_halve_stops (upper : float) (fuel : nat) :
  ∀ y cl : float,
    binary64.while_halve fuel y upper = binary64.Returns cl →
    (upper <? cl)%float = false ∧
    (cl = y ∨ ∃ x : float, cl = (x / 2)%float ∧ (upper <? x)%float = true).
Proof.
  induction fuel as [|fuel IH]; intros y cl; simpl;
    destruct (upper <? y)%float eqn:E; try done.
  - intros [= <-]. split; [done|by left].
  - intros H. destruct (IH _ _ H) as [Hstop [->|Hx]].
    + split; [done|]. right. by exists y.
    + split; [done|]. by right.
  - intros [= <-]. split; [done|by left].
Qed.

Lemma b64_chop_origin fuel lower D upper orig vs split_start sr id
    (c c' : Z) (d d' : dict) :
  (upper <? D)%float = true →
  binary64.chop_long_segment_duration fuel D upper orig vs split_start sr id d c
    = binary64.Returns (c', d') →
  writes_with (computed_origin lower upper) c d c' d'.
Proof.
  intros HD. unfold binary64.chop_long_segment_duration.
  destruct (binary64.while_halve fuel _ upper) as [cl| |] eqn:Hw; [|done..].
  cbn [mbind binary64.outcome_bind].
  destruct (binary64.to_int _) as [n| |]; [|done..].
  cbn [mbind binary64.outcome_bind].
  destruct (b64_while_halve_stops _ _ _ _ Hw) as [Hstop Hhalf].
  assert (Hx : ∃ x : float, cl = (x / 2)%float ∧ (upper <? x)%float = true).
  { destruct Hhalf as [->|Hx]; [by exists D|done]. }
  destruct Hx as (x & Hcl & Hx).
  apply b64_for_each_writes_with. intros i c0 d0 c1 d1 _.
  unfold binary64.chop_iteration, binary64.chop_bounds.
  apply b64_write_with. intros s e Es Ee. hnf. cbn [em_stage em_segment].
  eexists _, cl, x. split; [split; [exact Es|exact Ee]|done].
Qed.

Lemma b64_process_segment_origin fuel orig vs sr lower upper id split
    (c : Z) (d : dict) (c' : Z) (d' : dict) :
  binary64.process_non_mute_segment fuel orig vs sr lower upper id split (c, d)
    = binary64.Returns (c', d') →
  writes_with (computed_origin lower upper) c d c' d'.
Proof.
  unfold binary64.process_non_mute_segment, binary64.computed_duration.
  destruct (_ && _) eqn:Hband.
  - apply andb_true_iff in Hband as [Hlo Hup].
    apply b64_write_with. intros s e Es Ee. hnf. cbn [em_stage em_segment].
    eexists _, _. split; [split; [exact Es|exact Ee]|done].
  - destruct (_ <? _)%float eqn:Hlong.
    + by apply b64_chop_origin.
    + intros [= <- <-]. apply writes_with_refl.
Qed.

Lemma b64_process_origin fuel runs orig vs sr lower upper id (c c' : Z)
    (d d' : dict) :
  binary64.process_non_mute_segments fuel runs orig vs sr lower upper id c d
    = binary64.Returns (c', d') →
  writes_with (computed_origin lower upper) c d c' d'.
Proof.
  apply b64_for_each_writes_with. intros split c0 d0 c1 d1 _.
  apply b64_process_segment_origin.
Qed.

Lemma b64_classify_vad_span_origin fuel orig sr effects_split id lower upper vs
    (c : Z) (d : dict) (c' : Z) (d' : dict) :
  binary64.classify_vad_span fuel orig sr effects_split id lower upper vs (c, d)
    = binary64.Returns (c', d') →
  writes_with (computed_origin lower upper) c d c' d'.
Proof.
  unfold binary64.classify_vad_span.
  destruct (_ && _) eqn:Hband.
  - apply andb_true_iff in Hband as [Hlo Hup].
    apply b64_write_with. intros s e Es Ee. hnf. cbn [em_stage em_segment].
    eexists _, _, _. split; [split; [exact Es|exact Ee]|].
    split; [exact Hlo|]. split; [exact Hup|by left].
  - destruct (_ <? _)%float.
    + destruct (binary64.to_int (binary64.sec_to_frame (binary64.start vs) _))
        as [lo| |]; cbn; [|done..].
      destruct (binary64.to_int _) as [hi| |]; cbn; [|done..].
      apply b64_process_origin.
    + intros [= <- <-]. apply writes_with_refl.
Qed.

Lemma b64_classify_timestamp_origin fuel orig effects_split id lower upper ts
    (c : Z) (d : dict) (c' : Z) (d' : dict) :
  binary64.classify_timestamp fuel orig effects_split id lower upper ts (c, d)
    = binary64.Returns (c', d') →
  writes_with (computed_origin lower upper) c d c' d'.
Proof.
  unfold binary64.classify_timestamp.
  destruct (_ && _) eqn:Hband.
  - apply andb_true_iff in Hband as [Hlo Hup].
    apply b64_write_with. intros s e Es Ee. hnf. cbn [em_stage em_segment].
    eexists _, _, _. split; [split; [exact Es|exact Ee]|].
    split; [exact Hlo|]. split; [exact Hup|]. right. by exists ts.
  - destruct (_ <? _)%float.
    + apply b64_process_origin.
    + intros [= <- <-]. apply writes_with_refl.
Qed.

Lemma writes_with_run (P : emission → Prop) (c : Z) (d : dict) :
  writes_with P 1 empty_dict c d →
  (∀ e, e ∈ emitted d → P e) ∧
  (∀ k seg, items d !! k = Some seg →
     ∃ e, e ∈ emitted d ∧ em_key e = k ∧ em_segment e = seg).
Proof.
  intros (news & HP & _ & ->). unfold apply_writes, empty_dict.
  cbn [emitted items app]. split.
  - by apply Forall_forall.
  - intros k seg Hk.
    destruct (replay_lookup_origin news ∅ k seg Hk) as [He|He]; [|done].
    by rewrite lookup_empty in He.
Qed.

(** C1 (amended). In a run of either backend, as it computes in binary64,
    every entry of the returned dict is one of the writes, and every write
    has a known origin.  A segment written by the classifier or by the
    subdivider is the slice requested between the millisecond bounds of a
    span whose computed duration passed [lower_limit <= d <= upper_limit].
    A chop, whether the final one of its call or not, is the slice between
    two consecutive boundaries of a [chop_length] that is not above
    [upper_limit] and is half of a length above it; [lower_limit] is not
    compared with it. *)
Theorem run_computed_durations_in_band (fuel : nat) (orig : AudioSegment)
    (effects_split : Z → Z → list (Z * Z)) (id : string) (lower upper : float)
    (d : dict) :
  ((∃ (timeline : list binary64.Timeline) (sr : Z),
      binary64.get_split_audio fuel timeline orig sr effects_split id lower
        upper = binary64.Returns d)
   ∨ (∃ speech_timestamps : list (Z * Z),
        forallb sample_span speech_timestamps = true ∧
        binary64.get_split_audio_using_silero fuel speech_timestamps orig
          effects_split id lower upper = binary64.Returns d)) →
  (∀ e, e ∈ emitted d → computed_origin lower upper e) ∧
  (∀ k seg, items d !! k = Some seg →
     ∃ e, e ∈ emitted d ∧ em_key e = k ∧ em_segment e = seg).
Proof.
  intros [(timeline & sr & Hrun)|(speech_timestamps & _ & Hrun)].
  - unfold binary64.get_split_audio in Hrun.
    destruct (binary64.get_split_audio_loop _ _ _ _ _ _ _ _ _ _)
      as [[c d0]| |] eqn:E; cbn in Hrun; [|done..].
    injection Hrun as ->. apply (writes_with_run _ c).
    revert E. apply b64_for_each_writes_with. intros vs c0 d0 c1 d1 _.
    apply b64_classify_vad_span_origin.
  - unfold binary64.get_split_audio_using_silero in Hrun.
    destruct (binary64.get_split_audio_using_silero_loop _ _ _ _ _ _ _ _ _)
      as [[c d0]| |] eqn:E; cbn in Hrun; [|done..].
    injection Hrun as ->. apply (writes_with_run _ c).
    revert E. apply b64_for_each_writes_with. intros ts c0 d0 c1 d1 _.
    apply b64_classify_timestamp_origin.
Qed.

Lemma run_computed_durations_in_band_witness :
  let orig := {| seg_start_ms := 0; seg_end_ms := 30000 |} in
  let effects_split := λ lo hi : Z, [(0, hi - lo)]%Z in
  ∃ d : dict,
    binary64.get_split_audio_using_silero 1
      [(32288, 160288); (180000, 324000)]%Z orig effects_split "a" 2 8
      = binary64.Returns d ∧
    length (emitted d) = 3%nat ∧
    ∀ e, e ∈ emitted d → computed_origin 2 8 e.
Proof.
  intros orig effects_split.
  assert (Hrun : ∃ d, binary64.get_split_audio_using_silero 1
                   [(32288, 160288); (180000, 324000)]%Z orig effects_split
                   "a" 2 8 = binary64.Returns d ∧ length (emitted d) = 3%nat)
    by (eexists; split; vm_compute; reflexivity).
  destruct Hrun as (d & Hd & Hlen).
  exists d. split; [exact Hd|]. split; [exact Hlen|].
  apply (run_computed_durations_in_band 1 orig effects_split "a" 2 8 d).
  right. exists [(32288, 160288); (180000, 324000)]%Z.
  split; [reflexivity|exact Hd].
Defined.

(** ** The frame condition in binary64 *)

(** X12. As the program computes in binary64: when no key of the dict carries
    a sequence number from the input counter on, a call of
    [chop_long_segment_duration] or of [process_non_mute_segments] that
    returns has only added entries: every key present before is still
    present with the same value, and the returned counter is the input
    counter plus the number of entries added.  The state it leaves again
    holds no key with a sequence number from the returned counter on. *)
Theorem binary64_calls_only_add_entries (fuel : nat) (orig : AudioSegment)
    (vs : binary64.Timeline) (sr : Z) (upper : float) (id : string)
    (c c' : Z) (d d' : dict) :
  fresh id c (items d) →
  (∀ (D : float) (split_start : Z),
     binary64.chop_long_segment_duration fuel D upper orig vs split_start sr id
       d c = binary64.Returns (c', d') →
     only_adds c d c' d' ∧ fresh id c' (items d')) ∧
  (∀ (runs : list (Z * Z)) (lower : float),
     binary64.process_non_mute_segments fuel runs orig vs sr lower upper id c d
       = binary64.Returns (c', d') →
     only_adds c d c' d' ∧ fresh id c' (items d')).
Proof.
  intros Hf. split.
  - intros D split_start H. apply b64_chop_writes in H.
    split; [by eapply writes_from_only_adds|by eapply run_keeps_fresh].
  - intros runs lower H. apply b64_process_writes in H.
    split; [by eapply writes_from_only_adds|by eapply run_keeps_fresh].
Qed.

Lemma binary64_calls_only_add_entries_witness :
  let orig := {| seg_start_ms := 0; seg_end_ms := 30000 |} in
  let vs := binary64.silero_span (126428, 400000)%Z in
  let d0 := setitem Classifier "a_0001_2000_to_6500" orig empty_dict in
  ∃ (c' : Z) (d' : dict),
    binary64.process_non_mute_segments 1 [(0, 32000); (40000, 168000)]%Z orig
      vs 16000 2 8 "a" 2 d0 = binary64.Returns (c', d') ∧
    only_adds 2 d0 c' d'.
Proof.
  intros orig vs d0.
  assert (Hf : fresh "a" 2 (items d0)).
  { intros k s e Hk. unfold d0. cbn [setitem items empty_dict].
    apply lookup_insert_None. split; [apply lookup_empty|].
    change "a_0001_2000_to_6500" with (segment_key "a" 1 2000 6500).
    intros Heq. apply segment_key_inj in Heq. lia. }
  eexists _, _. split; [vm_compute; reflexivity|].
  refine (proj1 (proj2 (binary64_calls_only_add_entries 1 orig vs 16000 8 "a"
                          2 _ d0 _ Hf)
                   [(0, 32000); (40000, 168000)]%Z 2%float _)).
  vm_compute. reflexivity.
Defined.
